(** * swapout: force a process into swap through a small-memory cgroup

    A shallow embedding of [swapout.c].  The C functions are translated one
    by one, under their own names, into functions of a state monad over a
    model of the host: a file-system map, and the log of the system calls
    issued so far with their results.  What the program prints is left out:
    the [quiet] flag only selects messages, and no control flow depends on
    them.  The first part is the program, the second the vocabulary of the
    statements, the third the proofs; the statements are about the runs of
    [main] and of the functions it calls. *)

From Stdlib Require Import ZArith String Ascii List Lia Bool.
From Stdlib Require Import Floats.PrimFloat.
From stdpp Require Import base gmap strings pretty list.

Open Scope string_scope.
Open Scope list_scope.
Open Scope Z_scope.

(** ** C strings and the libc functions the program uses *)

Module CStr.

Definition NUL : ascii := "000"%char.
Definition LF : ascii := "010"%char.

(** The bytes of a buffer as a C string: everything before the first NUL. *)
Fixpoint c_str (s : string) : string :=
  match s with
  | EmptyString => EmptyString
  | String c r => if Ascii.eqb c NUL then EmptyString else String c (c_str r)
  end.

Fixpoint str_take (n : nat) (s : string) : string :=
  match n, s with
  | S n', String c r => String c (str_take n' r)
  | _, _ => EmptyString
  end.

(** [snprintf(buf, size, ...)] keeps at most [size - 1] bytes of the
    formatted text; [strncpy(dst, src, n)] followed by [dst[n] = 0] keeps
    at most [n]. *)
Definition snprintf (size : nat) (formatted : string) : string :=
  str_take (size - 1) formatted.

Definition strncpy (n : nat) (src : string) : string := str_take n src.

Definition isdigit (c : ascii) : bool :=
  let n := N_of_ascii c in (48 <=? n)%N && (n <=? 57)%N.

(** [isspace] in the C locale: space, \t, \n, \v, \f, \r. *)
Definition isspace (c : ascii) : bool :=
  let n := N_of_ascii c in (n =? 32)%N || ((9 <=? n)%N && (n <=? 13)%N).

Definition digit_val (c : ascii) : Z := Z.of_N (N_of_ascii c) - 48.

Definition LONG_MAX : Z := 2 ^ 63 - 1.
Definition LONG_MIN : Z := - 2 ^ 63.
Definition INT_MAX : Z := 2 ^ 31 - 1.
Definition INT_MIN : Z := - 2 ^ 31.

Fixpoint skip_space (s : string) : string :=
  match s with
  | String c r => if isspace c then skip_space r else s
  | EmptyString => EmptyString
  end.

Fixpoint digits (s : string) (acc : Z) : Z :=
  match s with
  | String c r => if isdigit c then digits r (acc * 10 + digit_val c) else acc
  | EmptyString => acc
  end.

(** [strtol(s, NULL, 10)]: leading white space, an optional sign, the
    longest run of decimal digits; 0 when there is none; the result is
    clamped to the range of [long] (64 bits). *)
Definition strtol (s : string) : Z :=
  match skip_space s with
  | String "-" r => Z.max LONG_MIN (- digits r 0)
  | String "+" r => Z.min LONG_MAX (digits r 0)
  | r => Z.min LONG_MAX (digits r 0)
  end.

(** Conversion of a [long] to [int] keeps the low 32 bits. *)
Definition to_int (z : Z) : Z := (z + 2 ^ 31) mod 2 ^ 32 - 2 ^ 31.

(** Multiplication of two [long long] values, wrapping to 64 bits. *)
Definition to_llong (z : Z) : Z := (z + 2 ^ 63) mod 2 ^ 64 - 2 ^ 63.

(** [atoi(s)] is glibc's [(int) strtol(s, NULL, 10)]. *)
Definition atoi (s : string) : Z := to_int (strtol s).

(** [rtrim]: drop the trailing bytes that are [<= 0x20]. *)
Fixpoint rtrim (s : string) : string :=
  match s with
  | EmptyString => EmptyString
  | String c r =>
      match rtrim r with
      | EmptyString => if (N_of_ascii c <=? 32)%N then EmptyString else String c EmptyString
      | r' => String c r'
      end
  end.

(** [fgets(line, size, fp)] stores at most [size - 1] bytes and stops after
    a newline.  [fgets_lines room0 room s] is the sequence of buffers that
    successive calls deliver on a stream holding [s], where [room0] is
    [size - 1] and [room] is what is left of the buffer being filled. *)
Fixpoint fgets_lines (room0 room : nat) (s : string) : list string :=
  match s with
  | EmptyString => []
  | String c r =>
      if Ascii.eqb c LF || (room <=? 1)%nat
      then String c EmptyString :: fgets_lines room0 room0 r
      else match fgets_lines room0 (room - 1) r with
           | [] => [String c EmptyString]
           | l :: ls => String c l :: ls
           end
  end.

(** Advance [p] to the first decimal digit of the line, or to its end. *)
Fixpoint skip_to_digit (s : string) : string :=
  match s with
  | EmptyString => EmptyString
  | String c r => if isdigit c then s else skip_to_digit r
  end.

(** [strncmp(line, tag, strlen(tag)) == 0] for a tag without NUL. *)
Definition starts_with (tag line : string) : bool := String.prefix tag line.

End CStr.

Import CStr.

(** ** The host: file system, system calls, and what the environment does *)

Inductive node :=
| Dir
| File (data : string).

Inductive syscall :=
| Stat (path : string)
| Read (path : string)                 (* fopen "r", fseek, ftell, fread, fclose *)
| Write (path : string) (data : string)  (* fopen "w", fwrite, fclose *)
| Mkdir (path : string)
| Rmdir (path : string)
| Nanosleep (secs : float).

Inductive outcome :=
| Failed (errno : Z)
| Done
| Found (is_dir : bool)     (* stat succeeded; S_ISDIR of the mode *)
| Bytes (data : string)     (* the bytes fread stored *)
| Wrote (n : nat).          (* the count fwrite returned *)

Definition ENOENT : Z := 2.
Definition EEXIST : Z := 17.
Definition ENOTDIR : Z := 20.
Definition EISDIR : Z := 21.

(** What the environment may do to a call: make it fail with an [errno];
    cut the transfer of a read or a write short after [n] bytes (as when a
    pseudo-file reports a size of 0 to [ftell]); or, for a write, take the
    bytes into the buffer of the stream, so that [fwrite] returns their whole
    count, and refuse them when [fclose] flushes the stream, after [n] bytes
    have reached the file (as when the kernel rejects the value written to
    an interface file). *)
Inductive fault :=
| Fail (errno : Z)
| Partial (n : nat)
| Unflushed (n : nat).

(** What a build makes of a copy that runs past the end of its buffer,
    which C leaves undefined: the process is aborted inside the function (a
    checked [strcpy]) and ends with [status], or the run goes on and the text
    the function reads back from the buffer is [text]. *)
Inductive overflow :=
| Aborts (status : Z)
| Yields (text : string).

(** The part of the host the program does not control.  [env_fault t c]
    decides whether the [t]-th system call of the run, [c], is disturbed;
    [env_interfere t] is what the rest of the system (the kernel, the target
    process, other tools) does to the file system just before that call;
    [env_atof] is libc's [atof]; [env_overflow] is what the build makes of
    a copy past the end of a buffer. *)
Record env := {
  env_fault : nat -> syscall -> option fault;
  env_interfere : nat -> gmap string node -> gmap string node;
  env_atof : string -> float;
  env_overflow : overflow
}.

Definition event : Type := syscall * outcome.

Record world := {
  w_fs : gmap string node;
  w_log : list event
}.

Definition beneath (dir path : string) : bool := String.prefix (dir +:+ "/") path.

Definition cut (part : option nat) (data : string) : string :=
  match part with
  | Some n => str_take n data
  | None => data
  end.

(** An undisturbed (or merely shortened) call on the file system [fs].
    Removing a directory takes what is beneath it along, as cgroupfs does
    with the interface files of a group. *)
Definition exec (c : syscall) (part : option nat) (fs : gmap string node)
  : outcome * gmap string node :=
  match c with
  | Stat p =>
      match fs !! p with
      | Some Dir => (Found true, fs)
      | Some (File _) => (Found false, fs)
      | None => (Failed ENOENT, fs)
      end
  | Read p =>
      match fs !! p with
      | Some (File d) => (Bytes (cut part d), fs)
      | Some Dir => (Failed EISDIR, fs)
      | None => (Failed ENOENT, fs)
      end
  | Write p d =>
      match fs !! p with
      | Some Dir => (Failed EISDIR, fs)
      | _ => (Wrote (String.length (cut part d)), <[p := File (cut part d)]> fs)
      end
  | Mkdir p =>
      match fs !! p with
      | Some _ => (Failed EEXIST, fs)
      | None => (Done, <[p := Dir]> fs)
      end
  | Rmdir p =>
      match fs !! p with
      | Some Dir =>
          (Done, filter (fun kv : string * node =>
                           (String.eqb kv.1 p || beneath p kv.1) = false) fs)
      | Some (File _) => (Failed ENOTDIR, fs)
      | None => (Failed ENOENT, fs)
      end
  | Nanosleep _ => (Done, fs)
  end.

(** A write that the stream takes whole and [fclose] flushes only up to
    the first [n] bytes: the count [fwrite] has returned is that of the whole
    text.  Other calls have no buffer of their own. *)
Definition exec_unflushed (c : syscall) (n : nat) (fs : gmap string node)
  : outcome * gmap string node :=
  match c with
  | Write p d =>
      match exec c (Some n) fs with
      | (Wrote _, fs') => (Wrote (String.length d), fs')
      | other => other
      end
  | _ => exec c None fs
  end.

(** ** The monad of the program: state passing over [world] *)

Definition M (A : Type) : Type := world -> A * world.

Definition ret {A} (a : A) : M A := fun w => (a, w).

Definition bind {A B} (m : M A) (k : A -> M B) : M B :=
  fun w => let (a, w') := m w in k a w'.

Notation "'let*' x ':=' m 'in' k" := (bind m (fun x => k))
  (at level 10, x name, m at level 100, k at level 200).

Notation "m1 ';;' m2" := (bind m1 (fun _ => m2))
  (at level 100, m2 at level 200, right associativity).

Section Program.

Context (E : env).

(** One system call: the environment moves first, then the call runs (or
    fails as the environment decides) and is appended to the log. *)
Definition sys (c : syscall) : M outcome :=
  fun w =>
    let t := length (w_log w) in
    let fs1 := env_interfere E t (w_fs w) in
    let (r, fs2) :=
      match env_fault E t c with
      | Some (Fail e) => (Failed e, fs1)
      | Some (Partial n) => exec c (Some n) fs1
      | Some (Unflushed n) => exec_unflushed c n fs1
      | None => exec c None fs1
      end in
    (r, {| w_fs := fs2; w_log := w_log w ++ [(c, r)] |}).

(** *** Types of the program *)

Inductive cgroup_version_t := CGROUP_NONE | CGROUP_V1 | CGROUP_V2.

Record proc_meminfo_t := {
  pid : Z;
  rss_kb : Z;
  swap_kb : Z
}.

Record cgroup_ctx_t := {
  ver : cgroup_version_t;
  group_dir : string;        (* char[256] *)
  procs_path : string;       (* char[512] *)
  limit_path : string;       (* char[512] *)
  backup_limit : string;     (* char[128] *)
  had_backup : bool
}.

(** *** Utility helpers *)

Definition file_exists (path : string) : M bool :=
  let* r := sys (Stat path) in
  ret (match r with Found _ => true | _ => false end).

(** The buffer [read_file] returns, read as a C string; [None] is [NULL]. *)
Definition read_file (path : string) : M (option string) :=
  let* r := sys (Read path) in
  ret (match r with Bytes d => Some (c_str d) | _ => None end).

(** 0 when [fopen] succeeded and [fwrite] returned the count of the whole
    of [val], -1 otherwise.  The result of [fclose] is dropped: what the
    flush of the stream did to the file is not seen here. *)
Definition write_file (path val : string) : M Z :=
  let* r := sys (Write path val) in
  ret (match r with
       | Wrote n => if (n =? String.length val)%nat then 0 else -1
       | _ => -1
       end).

(** The split of [secs] into a [timespec] is left out: the call is logged
    with [secs] itself. *)
Definition sleep_double (secs : float) : M unit :=
  if PrimFloat.leb secs 0%float then ret tt
  else (sys (Nanosleep secs) ;; ret tt).

(** *** proc mem info *)

Definition status_path (p : Z) : string :=
  snprintf 64 ("/proc/" +:+ pretty p +:+ "/status").

(** The number at the first digit of the line, when the line has one. *)
Definition parse_kb (line : string) (old : Z) : Z :=
  match skip_to_digit line with
  | EmptyString => old
  | p => strtol p
  end.

(** The body of the [fgets] loop, on one line buffer. *)
Definition scan_line (acc : Z * Z) (buf : string) : Z * Z :=
  let line := c_str buf in
  if starts_with "VmRSS:" line then (parse_kb line acc.1, acc.2)
  else if starts_with "VmSwap:" line then (acc.1, parse_kb line acc.2)
  else acc.

(** What the function stores in [*out] when the file holds [d]. *)
Definition parse_status (p : Z) (d : string) : proc_meminfo_t :=
  let acc := fold_left scan_line (fgets_lines 255 255 d) (0, 0) in
  {| pid := p; rss_kb := acc.1; swap_kb := acc.2 |}.

Definition sample_of (p : Z) (r : outcome) : option proc_meminfo_t :=
  match r with
  | Bytes d => Some (parse_status p d)
  | _ => None
  end.

(** [None] is the return value -1 (the status file could not be opened),
    [Some mi] is 0 with [*out = mi]. *)
Definition read_proc_meminfo (p : Z) : M (option proc_meminfo_t) :=
  let* r := sys (Read (status_path p)) in
  ret (sample_of p r).

(** *** cgroup detection and setup *)

Definition detect_cgroup_version : M cgroup_version_t :=
  let* v2 := file_exists "/sys/fs/cgroup/cgroup.controllers" in
  if v2 then ret CGROUP_V2
  else
    let* v1 := file_exists "/sys/fs/cgroup/memory" in
    if v1 then ret CGROUP_V1 else ret CGROUP_NONE.

(** [None] is the return value 0; [Some e] is -1 with [errno = e]. *)
Definition ensure_dir (path : string) : M (option Z) :=
  let* st := sys (Stat path) in
  match st with
  | Found true => ret None
  | Found false => ret (Some ENOTDIR)
  | _ =>
      let* r := sys (Mkdir path) in
      match r with
      | Failed e => ret (Some e)
      | _ => ret None
      end
  end.

(** [ensure_dir(path) != 0 && errno != EEXIST] *)
Definition dir_failed (r : option Z) : bool :=
  match r with
  | Some e => negb (e =? EEXIST)
  | None => false
  end.

(** The context after [memset] to zero, and the assignments to its fields. *)
Definition ctx_zero : cgroup_ctx_t :=
  {| ver := CGROUP_NONE; group_dir := ""; procs_path := ""; limit_path := "";
     backup_limit := ""; had_backup := false |}.

Definition set_ver (v : cgroup_version_t) (ctx : cgroup_ctx_t) : cgroup_ctx_t :=
  {| ver := v; group_dir := group_dir ctx; procs_path := procs_path ctx;
     limit_path := limit_path ctx; backup_limit := backup_limit ctx;
     had_backup := had_backup ctx |}.

Definition set_group_dir (s : string) (ctx : cgroup_ctx_t) : cgroup_ctx_t :=
  {| ver := ver ctx; group_dir := s; procs_path := procs_path ctx;
     limit_path := limit_path ctx; backup_limit := backup_limit ctx;
     had_backup := had_backup ctx |}.

Definition set_procs_path (s : string) (ctx : cgroup_ctx_t) : cgroup_ctx_t :=
  {| ver := ver ctx; group_dir := group_dir ctx; procs_path := s;
     limit_path := limit_path ctx; backup_limit := backup_limit ctx;
     had_backup := had_backup ctx |}.

Definition set_limit_path (s : string) (ctx : cgroup_ctx_t) : cgroup_ctx_t :=
  {| ver := ver ctx; group_dir := group_dir ctx; procs_path := procs_path ctx;
     limit_path := s; backup_limit := backup_limit ctx;
     had_backup := had_backup ctx |}.

Definition set_backup (s : string) (had : bool) (ctx : cgroup_ctx_t) : cgroup_ctx_t :=
  {| ver := ver ctx; group_dir := group_dir ctx; procs_path := procs_path ctx;
     limit_path := limit_path ctx; backup_limit := s; had_backup := had |}.

(** The return value and the context as the function leaves it.  The two
    branches of the version test either return -1 from the inside ([inl],
    with the context as it is then) or go on to the common tail ([inr]). *)
Definition setup_cgroup_for_pid (p : Z) (quiet : bool) : M (Z * cgroup_ctx_t) :=
  let ctx := ctx_zero in
  let* v := detect_cgroup_version in
  let ctx := set_ver v ctx in
  match v with
  | CGROUP_NONE => ret (-1, ctx)
  | _ =>
      let pid_str := snprintf 32 (pretty p) in
      let* dirs :=
        match v with
        | CGROUP_V2 =>
            let base := "/sys/fs/cgroup/swapout" in
            let* r := ensure_dir "/sys/fs/cgroup" in
            if dir_failed r then ret (inl ctx)
            else
              let* r := ensure_dir base in
              if dir_failed r then ret (inl ctx)
              else
                let ctx := set_group_dir (snprintf 256 (base +:+ "/" +:+ pid_str)) ctx in
                let* r := ensure_dir (group_dir ctx) in
                if dir_failed r then ret (inl ctx)
                else
                  let ctx :=
                    set_procs_path (snprintf 512 (group_dir ctx +:+ "/cgroup.procs")) ctx in
                  let ctx :=
                    set_limit_path (snprintf 512 (group_dir ctx +:+ "/memory.high")) ctx in
                  ret (inr ctx)
        | _ =>
            (* v1 memory controller *)
            let base := "/sys/fs/cgroup/memory/swapout" in
            let* r := ensure_dir "/sys/fs/cgroup/memory" in
            if dir_failed r then ret (inl ctx)
            else
              let* r := ensure_dir base in
              if dir_failed r then ret (inl ctx)
              else
                let ctx := set_group_dir (snprintf 256 (base +:+ "/" +:+ pid_str)) ctx in
                let* r := ensure_dir (group_dir ctx) in
                if dir_failed r then ret (inl ctx)
                else
                  let ctx :=
                    set_procs_path (snprintf 512 (group_dir ctx +:+ "/cgroup.procs")) ctx in
                  let ctx :=
                    set_limit_path
                      (snprintf 512 (group_dir ctx +:+ "/memory.limit_in_bytes")) ctx in
                  ret (inr ctx)
        end in
      match dirs with
      | inl ctx => ret (-1, ctx)
      | inr ctx =>
          (* Backup original limit, if readable *)
          let* orig := read_file (limit_path ctx) in
          let ctx :=
            match orig with
            | Some o => set_backup (strncpy 127 (rtrim o)) true ctx
            | None => set_backup (backup_limit ctx) false ctx
            end in
          (* Move PID into this cgroup *)
          let pidbuf := snprintf 32 (pretty p +:+ String LF "") in
          let* w := write_file (procs_path ctx) pidbuf in
          if negb (w =? 0) then ret (-1, ctx) else ret (0, ctx)
      end
  end.

(** Apply low memory limit.  The product is taken in [long long], where an
    overflow is undefined in C; here it wraps. *)
Definition apply_low_limit (ctx : cgroup_ctx_t) (limit_mb : Z) (quiet : bool) : M Z :=
  let buf :=
    match ver ctx with
    | CGROUP_V2 =>
        let bytes := to_llong (limit_mb * 1024 * 1024) in
        snprintf 64 (pretty bytes +:+ String LF "")
    | _ =>
        let bytes := to_llong (limit_mb * 1024 * 1024) in
        snprintf 64 (pretty bytes +:+ String LF "")
    end in
  let* w := write_file (limit_path ctx) buf in
  if negb (w =? 0) then ret (-1) else ret 0.

(** How a call of a function ends: it returns, or the process is aborted
    inside it and ends with [status]. *)
Inductive ending :=
| Returns
| Aborted (status : Z).

(** [strcpy(dst, src)] into a buffer [dst] of [size] bytes: the text and its
    NUL have to fit.  [None] where they do not: the copy then runs past the
    end of the buffer. *)
Definition strcpy (size : nat) (src : string) : option string :=
  if (String.length src <? size)%nat then Some src else None.

(** The text [val] that [restore_limit] chooses: the backup, or the
    fallback of the version, copied into [char fallback[16]]. *)
Definition restore_value (ctx : cgroup_ctx_t) : option string :=
  if had_backup ctx && negb (String.eqb (backup_limit ctx) "")
  then Some (backup_limit ctx)
  else match ver ctx with
       | CGROUP_V2 => strcpy 16 "max"
       | _ => strcpy 16 "9223372036854771712"
       end.

(** Restore original limit or set to max.  Where the fallback does not fit
    its buffer the build decides: the process is aborted in the copy, or the
    function goes on with the text it finds in the buffer. *)
Definition restore_limit (ctx : cgroup_ctx_t) (quiet : bool) : M ending :=
  match ver ctx with
  | CGROUP_NONE => ret Returns
  | _ =>
      match restore_value ctx with
      | Some val =>
          let tmp := snprintf 128 (val +:+ String LF "") in
          write_file (limit_path ctx) tmp ;; ret Returns
      | None =>
          match env_overflow E with
          | Aborts status => ret (Aborted status)
          | Yields text =>
              let tmp := snprintf 128 (c_str text +:+ String LF "") in
              write_file (limit_path ctx) tmp ;; ret Returns
          end
      end
  end.

(** Cleanup group dir (best effort) *)
Definition cleanup_cgroup (ctx : cgroup_ctx_t) (quiet : bool) : M unit :=
  if String.eqb (group_dir ctx) "" then ret tt
  else (sys (Rmdir (group_dir ctx)) ;; ret tt).

(** *** main *)

Record config := {
  limit_mb : Z;          (* long: memory limit during swapout *)
  target_rss_kb : Z;     (* long: stop when RSS <= this *)
  interval : float;      (* double: seconds between polls *)
  max_iter : Z;          (* int: maximum iterations *)
  quiet : bool
}.

Definition defaults : config :=
  {| limit_mb := 8; target_rss_kb := 16384; interval := 1%float;
     max_iter := 60; quiet := false |}.

(** The [switch] on what [getopt_long] returned, with [optarg]: either the
    loop goes on with the updated variables, or [main] returns. *)
Definition handle_opt (c : config) (opt : ascii) (optarg : string) : config + Z :=
  match opt with
  | "m"%char =>
      let v := strtol optarg in
      inl {| limit_mb := if v <=? 0 then 8 else v;
             target_rss_kb := target_rss_kb c; interval := interval c;
             max_iter := max_iter c; quiet := quiet c |}
  | "r"%char =>
      let v := strtol optarg in
      inl {| limit_mb := limit_mb c;
             target_rss_kb := if v <=? 0 then 16384 else v;
             interval := interval c; max_iter := max_iter c; quiet := quiet c |}
  | "i"%char =>
      let v := env_atof E optarg in
      inl {| limit_mb := limit_mb c; target_rss_kb := target_rss_kb c;
             interval := if PrimFloat.leb v 0%float then 1%float else v;
             max_iter := max_iter c; quiet := quiet c |}
  | "n"%char =>
      let v := atoi optarg in
      inl {| limit_mb := limit_mb c; target_rss_kb := target_rss_kb c;
             interval := interval c;
             max_iter := if v <=? 0 then 60 else v; quiet := quiet c |}
  | "q"%char =>
      inl {| limit_mb := limit_mb c; target_rss_kb := target_rss_kb c;
             interval := interval c; max_iter := max_iter c; quiet := true |}
  | "h"%char => inr 0
  | _ => inr 1
  end.

(** The [getopt_long] loop.  [opts] is what the successive calls return
    before -1: the option character ('?' for what it rejects) and
    [optarg]. *)
Fixpoint getopt_loop (opts : list (ascii * string)) (c : config) : config + Z :=
  match opts with
  | [] => inl c
  | (o, a) :: rest =>
      match handle_opt c o a with
      | inl c' => getopt_loop rest c'
      | inr code => inr code
      end
  end.

(** The states in which the poll loop is left; the first two are its two
    [break]s ([done = 1]), the third is the loop test failing. *)
Inductive stop_state := Converged | ProcessVanished | TimedOut.

(** [while (iter < max_iter) { ... }].  [fuel] bounds the number of turns;
    [None] means it ran out. *)
Fixpoint poll_loop (fuel : nat) (p : Z) (c : config) (iter : Z)
  : M (option (Z * stop_state)) :=
  if iter <? max_iter c then
    match fuel with
    | O => ret None
    | S fuel' =>
        let* r := read_proc_meminfo p in
        match r with
        | None => ret (Some (iter, ProcessVanished))
        | Some mi =>
            if rss_kb mi <=? target_rss_kb c then ret (Some (iter, Converged))
            else (sleep_double (interval c) ;; poll_loop fuel' p c (iter + 1))
        end
    end
  else ret (Some (iter, TimedOut)).

(** [main], after [getopt_long] has gone through the command line: [opts]
    as above, [args] the arguments from [argv[optind]] on.  The result is
    the status the process ends with: what [main] returns, or the status of
    the abort when the process is aborted in [restore_limit]. *)
Definition main (opts : list (ascii * string)) (args : list string) : M (option Z) :=
  match getopt_loop opts defaults with
  | inr code => ret (Some code)
  | inl c =>
      match args with
      | [] => ret (Some 1)
      | a :: _ =>
          let p := atoi a in
          if p <=? 0 then ret (Some 1)
          else
            let proc_path := snprintf 64 ("/proc/" +:+ pretty p) in
            let* alive := file_exists proc_path in
            if negb alive then ret (Some 1)
            else
              let* s := setup_cgroup_for_pid p (quiet c) in
              if negb (s.1 =? 0) then ret (Some 1)
              else
                let ctx := s.2 in
                let* a := apply_low_limit ctx (limit_mb c) (quiet c) in
                if negb (a =? 0)
                then
                  let* e := restore_limit ctx (quiet c) in
                  match e with
                  | Aborted status => ret (Some status)
                  | Returns => (cleanup_cgroup ctx (quiet c) ;; ret (Some 1))
                  end
                else
                  let* r := poll_loop (Z.to_nat (max_iter c)) p c 0 in
                  match r with
                  | None => ret None
                  | Some _ =>
                      let* e := restore_limit ctx (quiet c) in
                      match e with
                      | Aborted status => ret (Some status)
                      | Returns => (cleanup_cgroup ctx (quiet c) ;; ret (Some 0))
                      end
                  end
      end
  end.

End Program.

(** * Vocabulary of the statements *)

(** ** Runs and events *)

(** [emits m w a evs w']: run from [w], the computation [m] returns [a],
    leaves the host in [w'] and has added the events [evs] to the log. *)
Definition emits {A} (m : M A) (w : world) (a : A) (evs : list event) (w' : world) : Prop :=
  m w = (a, w') /\ w_log w' = w_log w ++ evs.

Definition is_stat (e : event) : bool :=
  match e.1 with Stat _ => true | _ => false end.

Definition is_mkdir (e : event) : bool :=
  match e.1 with Mkdir _ => true | _ => false end.

Definition is_sample (e : event) : bool :=
  match e.1 with Read _ => true | _ => false end.

Definition is_sleep (e : event) : bool :=
  match e.1 with Nanosleep _ => true | _ => false end.

Definition is_found (r : outcome) : bool :=
  match r with Found _ => true | _ => false end.

(** [write_file] returns 0 exactly on such a result. *)
Definition full_write (data : string) (r : outcome) : bool :=
  match r with
  | Wrote n => (n =? String.length data)%nat
  | _ => false
  end.

(** Calls that only look at directories or create them. *)
Definition prepares (e : event) : Prop :=
  is_stat e = true \/ is_mkdir e = true.

(** The results of the reads in a stretch of the log, in order. *)
Definition sample_results (evs : list event) : list outcome :=
  omap (fun e : event => match e.1 with Read _ => Some e.2 | _ => None end) evs.

(** The samples that were obtained in a stretch of the log: the reads of the
    status file that succeeded, parsed. *)
Definition readings (p : Z) (evs : list event) : list proc_meminfo_t :=
  omap (sample_of p) (sample_results evs).

(** What the environment alone does to the file system during the [n] calls
    that start at call number [t]. *)
Fixpoint ambient (E : env) (t n : nat) (fs : gmap string node) : gmap string node :=
  match n with
  | O => fs
  | S n' => ambient E (S t) n' (env_interfere E t fs)
  end.

(** ** Paths and texts the program computes *)

Definition controllers_marker : string := "/sys/fs/cgroup/cgroup.controllers".
Definition memory_marker : string := "/sys/fs/cgroup/memory".

Definition proc_path (p : Z) : string := snprintf 64 ("/proc/" +:+ pretty p).

(** The directories and files of the two branches of
    [setup_cgroup_for_pid], by version. *)
Definition cgroup_root (v : cgroup_version_t) : string :=
  match v with
  | CGROUP_V2 => "/sys/fs/cgroup"
  | _ => "/sys/fs/cgroup/memory"
  end.

Definition cgroup_base (v : cgroup_version_t) : string :=
  match v with
  | CGROUP_V2 => "/sys/fs/cgroup/swapout"
  | _ => "/sys/fs/cgroup/memory/swapout"
  end.

Definition limit_file (v : cgroup_version_t) : string :=
  match v with
  | CGROUP_V2 => "/memory.high"
  | _ => "/memory.limit_in_bytes"
  end.

(** The paths [setup_cgroup_for_pid] computes for version [v] and pid [p]. *)
Definition group_path (v : cgroup_version_t) (p : Z) : string :=
  snprintf 256 (cgroup_base v +:+ "/" +:+ snprintf 32 (pretty p)).

Definition procs_of (v : cgroup_version_t) (p : Z) : string :=
  snprintf 512 (group_path v p +:+ "/cgroup.procs").

Definition limit_of (v : cgroup_version_t) (p : Z) : string :=
  snprintf 512 (group_path v p +:+ limit_file v).

Definition pid_line (p : Z) : string := snprintf 32 (pretty p +:+ String LF "").

(** The text [apply_low_limit] writes for a limit of [mb] megabytes. *)
Definition limit_line (mb : Z) : string :=
  snprintf 64 (pretty (to_llong (mb * 1024 * 1024)) +:+ String LF "").

(** The text [restore_limit] formats from the value [val]. *)
Definition restore_text (val : string) : string :=
  snprintf 128 (val +:+ String LF "").

(** The text [restore_limit] writes; none where the value it would write
    does not fit its buffer. *)
Definition restore_line (ctx : cgroup_ctx_t) : option string :=
  option_map restore_text (restore_value ctx).

(** The text that stands for "no limit". *)
Definition sentinel (v : cgroup_version_t) : string :=
  match v with
  | CGROUP_V2 => "max"
  | _ => "9223372036854771712"
  end.

(** A read of the limit file of some group of the tool. *)
Definition limit_read (e : event) : Prop :=
  exists v p r, e = (Read (limit_of v p), r).

(** ** The command line *)

(** The variables [main] holds after the option loop are positive and in
    the range of their types; the interval is not [<= 0]. *)
Definition valid_config (c : config) : Prop :=
  1 <= limit_mb c <= LONG_MAX
  /\ 1 <= target_rss_kb c <= LONG_MAX
  /\ PrimFloat.leb (interval c) 0%float = false
  /\ 1 <= max_iter c <= INT_MAX.

(** The options after which the option loop goes on. *)
Definition continues (o : ascii) : bool :=
  match o with
  | "m"%char | "r"%char | "i"%char | "n"%char | "q"%char => true
  | _ => false
  end.

(** A pid argument that is the decimal text of a process id. *)
Definition pid_text (a : string) : Prop :=
  exists p, 0 < p <= INT_MAX /\ a = pretty p.

(** The exit status on an invalid pid argument, as the specification has
    it: when the option loop lets [main] go on and the first argument is not
    the text of a process id, [main] ends with status 1. *)
Definition invalid_pid_exits_1 : Prop :=
  forall E opts c a rest w,
    getopt_loop E opts defaults = inl c -> ~ pid_text a ->
    (main E opts (a :: rest) w).1 = Some 1.

(** [-h] is reached: every option before it is one the loop accepts. *)
Definition help_first (opts : list (ascii * string)) : Prop :=
  exists pre optarg rest,
    opts = pre ++ ("h"%char, optarg) :: rest
    /\ Forall (fun o : ascii * string => continues o.1 = true) pre.

(** ** The poll loop *)

Section PollingShape.

Context (p : Z) (c : config).

(** A sample ends the loop when the status file could not be read or the
    resident size is at the target. *)
Definition stops (r : outcome) : bool :=
  match sample_of p r with
  | None => true
  | Some mi => rss_kb mi <=? target_rss_kb c
  end.

Definition stop_of (r : outcome) : stop_state :=
  match sample_of p r with
  | None => ProcessVanished
  | Some _ => Converged
  end.

Definition sleep_tr (sl : list event) : Prop :=
  if PrimFloat.leb (interval c) 0%float then sl = []
  else exists r, sl = [(Nanosleep (interval c), r)].

(** The events of the loop when [n] turns are left, and how it ends. *)
Inductive polls : nat -> list event -> stop_state -> Prop :=
| polls_timed_out : polls 0 [] TimedOut
| polls_stop n r :
    stops r = true ->
    polls (S n) [(Read (status_path p), r)] (stop_of r)
| polls_again n r sl evs st :
    stops r = false -> sleep_tr sl -> polls n evs st ->
    polls (S n) ((Read (status_path p), r) :: sl ++ evs) st.

End PollingShape.

(** What the poll loop of [main] adds to the log. *)
Definition poll_events (E : env) (p : Z) (c : config) (w : world) : list event :=
  drop (length (w_log w)) (w_log (poll_loop E (Z.to_nat (max_iter c)) p c 0 w).2).

(** [sleeps_only_between_samples evs]: every sleep in [evs] comes directly
    after a sample and directly before another one. *)
Definition sleeps_only_between_samples (evs : list event) : Prop :=
  forall i e, evs !! i = Some e -> is_sleep e = true ->
    (exists i' a, i = S i' /\ evs !! i' = Some a /\ is_sample a = true)
    /\ (exists b, evs !! (S i) = Some b /\ is_sample b = true).

(** [sleep_after_continuing_samples p c evs]: every sleep in [evs] comes
    directly after a sample that did not end the loop, every such sample is
    directly followed by a sleep of [interval c] seconds, and nothing follows
    a sample that ended the loop. *)
Definition sleep_after_continuing_samples (p : Z) (c : config) (evs : list event) : Prop :=
  (forall i e, evs !! i = Some e -> is_sleep e = true ->
     exists i' r, i = S i' /\ evs !! i' = Some (Read (status_path p), r)
                  /\ stops p c r = false)
  /\ (forall i e, evs !! i = Some e -> is_sample e = true ->
        if stops p c e.2
        then evs !! (S i) = None
        else exists rs, evs !! (S i) = Some (Nanosleep (interval c), rs)).

(** The lines of a text, each with its newline when it has one. *)
Fixpoint text_lines (s : string) : list string :=
  match s with
  | EmptyString => []
  | String c r =>
      if Ascii.eqb c LF then String c EmptyString :: text_lines r
      else match text_lines r with
           | [] => [String c EmptyString]
           | l :: ls => String c l :: ls
           end
  end.

(** No line of the status text, as [fgets] hands the lines to the sampler
    (up to the newline, and at most 255 bytes at a time), starts with
    [VmRSS:] or [VmSwap:]. *)
Definition no_tag_line (d : string) : Prop :=
  forall line, In line (fgets_lines 255 255 d) ->
    starts_with "VmRSS:" (c_str line) = false
    /\ starts_with "VmSwap:" (c_str line) = false.

(** ** Provisioning and the context it leaves *)

(** The context at the three places where the function can return. *)
Definition ctx_detected (v : cgroup_version_t) : cgroup_ctx_t :=
  {| ver := v; group_dir := ""; procs_path := ""; limit_path := "";
     backup_limit := ""; had_backup := false |}.

Definition ctx_named (v : cgroup_version_t) (p : Z) : cgroup_ctx_t :=
  {| ver := v; group_dir := group_path v p; procs_path := ""; limit_path := "";
     backup_limit := ""; had_backup := false |}.

Definition ctx_backed_up (v : cgroup_version_t) (p : Z) (rd : outcome) : cgroup_ctx_t :=
  match rd with
  | Bytes d =>
      {| ver := v; group_dir := group_path v p; procs_path := procs_of v p;
         limit_path := limit_of v p;
         backup_limit := strncpy 127 (rtrim (c_str d)); had_backup := true |}
  | _ =>
      {| ver := v; group_dir := group_path v p; procs_path := procs_of v p;
         limit_path := limit_of v p; backup_limit := ""; had_backup := false |}
  end.

(** The events of [ensure_dir path] and what it returns. *)
Inductive ensure_dir_tr (path : string) : list event -> option Z -> Prop :=
| ed_present :
    ensure_dir_tr path [(Stat path, Found true)] None
| ed_not_a_dir :
    ensure_dir_tr path [(Stat path, Found false)] (Some ENOTDIR)
| ed_mkdir s m :
    is_found s = false ->
    ensure_dir_tr path [(Stat path, s); (Mkdir path, m)]
      (match m with Failed e => Some e | _ => None end).

(** The events of [detect_cgroup_version] and what it returns. *)
Inductive detect_tr : list event -> cgroup_version_t -> Prop :=
| dt_v2 r :
    is_found r = true ->
    detect_tr [(Stat controllers_marker, r)] CGROUP_V2
| dt_v1 r1 r2 :
    is_found r1 = false -> is_found r2 = true ->
    detect_tr [(Stat controllers_marker, r1); (Stat memory_marker, r2)] CGROUP_V1
| dt_none r1 r2 :
    is_found r1 = false -> is_found r2 = false ->
    detect_tr [(Stat controllers_marker, r1); (Stat memory_marker, r2)] CGROUP_NONE.

(** The five ways through [setup_cgroup_for_pid]: the events, the return
    value and the context left behind. *)
Inductive setup_tr (p : Z) : list event -> Z * cgroup_ctx_t -> Prop :=
| st_no_controller e0 :
    detect_tr e0 CGROUP_NONE ->
    setup_tr p e0 (-1, ctx_detected CGROUP_NONE)
| st_root_failed v e0 e1 r1 :
    v <> CGROUP_NONE -> detect_tr e0 v ->
    ensure_dir_tr (cgroup_root v) e1 r1 -> dir_failed r1 = true ->
    setup_tr p (e0 ++ e1) (-1, ctx_detected v)
| st_base_failed v e0 e1 r1 e2 r2 :
    v <> CGROUP_NONE -> detect_tr e0 v ->
    ensure_dir_tr (cgroup_root v) e1 r1 -> dir_failed r1 = false ->
    ensure_dir_tr (cgroup_base v) e2 r2 -> dir_failed r2 = true ->
    setup_tr p (e0 ++ e1 ++ e2) (-1, ctx_detected v)
| st_group_failed v e0 e1 r1 e2 r2 e3 r3 :
    v <> CGROUP_NONE -> detect_tr e0 v ->
    ensure_dir_tr (cgroup_root v) e1 r1 -> dir_failed r1 = false ->
    ensure_dir_tr (cgroup_base v) e2 r2 -> dir_failed r2 = false ->
    ensure_dir_tr (group_path v p) e3 r3 -> dir_failed r3 = true ->
    setup_tr p (e0 ++ e1 ++ e2 ++ e3) (-1, ctx_named v p)
| st_migrate v e0 e1 r1 e2 r2 e3 r3 rd wr :
    v <> CGROUP_NONE -> detect_tr e0 v ->
    ensure_dir_tr (cgroup_root v) e1 r1 -> dir_failed r1 = false ->
    ensure_dir_tr (cgroup_base v) e2 r2 -> dir_failed r2 = false ->
    ensure_dir_tr (group_path v p) e3 r3 -> dir_failed r3 = false ->
    setup_tr p
      (e0 ++ e1 ++ e2 ++ e3
          ++ [(Read (limit_of v p), rd); (Write (procs_of v p) (pid_line p), wr)])
      (if full_write (pid_line p) wr then 0 else -1, ctx_backed_up v p rd).

(** [group_path_iff_success res]: the group path of the context is
    non-empty exactly when [setup_cgroup_for_pid] returned 0. *)
Definition group_path_iff_success (res : Z * cgroup_ctx_t) : Prop :=
  group_dir res.2 <> "" <-> res.1 = 0.

(** The original limit as the context holds it: absent when the limit file
    could not be read. *)
Definition original_limit (ctx : cgroup_ctx_t) : option string :=
  if had_backup ctx then Some (backup_limit ctx) else None.

(** [restores_original ctx]: the text chosen for the restore is the captured
    original, or the sentinel when there is none. *)
Definition restores_original (ctx : cgroup_ctx_t) : Prop :=
  restore_value ctx = Some (match original_limit ctx with
                            | Some t => t
                            | None => sentinel (ver ctx)
                            end).

(** ** The whole run *)

(** The events of [restore_limit] on a context with a version, and how it
    ends: the one write of the text that fits; or, where the fallback does
    not fit its buffer, what the build makes of it. *)
Inductive restore_tr (E : env) (ctx : cgroup_ctx_t) : list event -> ending -> Prop :=
| rt_fits text rr :
    restore_line ctx = Some text ->
    restore_tr E ctx [(Write (limit_path ctx) text, rr)] Returns
| rt_yields text rr :
    restore_line ctx = None -> env_overflow E = Yields text ->
    restore_tr E ctx [(Write (limit_path ctx) (restore_text (c_str text)), rr)] Returns
| rt_aborts status :
    restore_line ctx = None -> env_overflow E = Aborts status ->
    restore_tr E ctx [] (Aborted status).

(** The ways through [main]: the events of the run and the exit status. *)
Inductive main_tr (E : env) (opts : list (ascii * string)) (args : list string)
  : list event -> Z -> Prop :=
| mt_usage code :
    getopt_loop E opts defaults = inr code ->
    main_tr E opts args [] code
| mt_no_pid c :
    getopt_loop E opts defaults = inl c -> args = [] ->
    main_tr E opts args [] 1
| mt_bad_pid c a rest :
    getopt_loop E opts defaults = inl c -> args = a :: rest -> atoi a <= 0 ->
    main_tr E opts args [] 1
| mt_no_process c a rest r :
    getopt_loop E opts defaults = inl c -> args = a :: rest -> 0 < atoi a ->
    is_found r = false ->
    main_tr E opts args [(Stat (proc_path (atoi a)), r)] 1
| mt_setup_failed c a rest r evs rc ctx :
    getopt_loop E opts defaults = inl c -> args = a :: rest -> 0 < atoi a ->
    is_found r = true ->
    setup_tr (atoi a) evs (rc, ctx) -> rc <> 0 ->
    main_tr E opts args ((Stat (proc_path (atoi a)), r) :: evs) 1
| mt_apply_failed c a rest r evs ctx wr revs rm :
    getopt_loop E opts defaults = inl c -> args = a :: rest -> 0 < atoi a ->
    is_found r = true ->
    setup_tr (atoi a) evs (0, ctx) ->
    full_write (limit_line (limit_mb c)) wr = false ->
    restore_tr E ctx revs Returns ->
    main_tr E opts args
      ((Stat (proc_path (atoi a)), r) :: evs
         ++ [(Write (limit_path ctx) (limit_line (limit_mb c)), wr)]
         ++ revs ++ [(Rmdir (group_dir ctx), rm)]) 1
| mt_apply_aborted c a rest r evs ctx wr revs status :
    getopt_loop E opts defaults = inl c -> args = a :: rest -> 0 < atoi a ->
    is_found r = true ->
    setup_tr (atoi a) evs (0, ctx) ->
    full_write (limit_line (limit_mb c)) wr = false ->
    restore_tr E ctx revs (Aborted status) ->
    main_tr E opts args
      ((Stat (proc_path (atoi a)), r) :: evs
         ++ [(Write (limit_path ctx) (limit_line (limit_mb c)), wr)]
         ++ revs) status
| mt_polled c a rest r evs ctx wr pevs st revs rm :
    getopt_loop E opts defaults = inl c -> args = a :: rest -> 0 < atoi a ->
    is_found r = true ->
    setup_tr (atoi a) evs (0, ctx) ->
    full_write (limit_line (limit_mb c)) wr = true ->
    polls (atoi a) c (Z.to_nat (max_iter c)) pevs st ->
    restore_tr E ctx revs Returns ->
    main_tr E opts args
      ((Stat (proc_path (atoi a)), r) :: evs
         ++ [(Write (limit_path ctx) (limit_line (limit_mb c)), wr)]
         ++ pevs
         ++ revs ++ [(Rmdir (group_dir ctx), rm)]) 0
| mt_polled_aborted c a rest r evs ctx wr pevs st revs status :
    getopt_loop E opts defaults = inl c -> args = a :: rest -> 0 < atoi a ->
    is_found r = true ->
    setup_tr (atoi a) evs (0, ctx) ->
    full_write (limit_line (limit_mb c)) wr = true ->
    polls (atoi a) c (Z.to_nat (max_iter c)) pevs st ->
    restore_tr E ctx revs (Aborted status) ->
    main_tr E opts args
      ((Stat (proc_path (atoi a)), r) :: evs
         ++ [(Write (limit_path ctx) (limit_line (limit_mb c)), wr)]
         ++ pevs
         ++ revs) status.

(** ** Hosts and runs for the examples *)

Definition nl : string := String LF EmptyString.

Definition status_text (rss swap : string) : string :=
  "Name:   sleeper" +:+ nl +:+ "VmRSS:     " +:+ rss +:+ " kB" +:+ nl
  +:+ "VmSwap:    " +:+ swap +:+ " kB" +:+ nl.

(** The status text of a kernel thread: no memory lines. *)
Definition kthread_status : string :=
  "Name:   kworker/0:1" +:+ nl +:+ "State:  I (idle)" +:+ nl
  +:+ "Pid:    42" +:+ nl +:+ "Threads:        1" +:+ nl.

(** Nothing fails and nothing moves but the tool.  The build is one in
    which a copy past the end of [fallback] leaves its first 16 bytes to be
    read back. *)
Definition quiet_env : env :=
  {| env_fault := fun _ _ => None;
     env_interfere := fun _ fs => fs;
     env_atof := fun _ => 1%float;
     env_overflow := Yields "9223372036854771" |}.

(** An environment in which no file can be opened for writing (EACCES). *)
Definition readonly_env : env :=
  {| env_fault := fun _ c => match c with Write _ _ => Some (Fail 13) | _ => None end;
     env_interfere := fun _ fs => fs;
     env_atof := fun _ => 1%float;
     env_overflow := Yields "9223372036854771" |}.

(** What the system does around the run [swapout 42] on [host_v2]: the
    kernel puts the limit file into the new group before the tool's call
    number 7 (the read of the limit), and the resident size of the process
    is [rss2] kB from call number 12 (the second sample) and [rss3] kB from
    call number 14 (the third). *)
Definition shrinking_env (rss2 rss3 : string) : env :=
  {| env_fault := fun _ _ => None;
     env_interfere := fun t fs =>
       if (t =? 7)%nat
       then <["/sys/fs/cgroup/swapout/42/memory.high" := File ("max" +:+ nl)]> fs
       else if (t =? 12)%nat
       then <["/proc/42/status" := File (status_text rss2 "8000")]> fs
       else if (t =? 14)%nat
       then <["/proc/42/status" := File (status_text rss3 "12000")]> fs
       else fs;
     env_atof := fun _ => 1%float;
     env_overflow := Yields "9223372036854771" |}.

(** The process exits between the first and the second sample. *)
Definition exiting_env : env :=
  {| env_fault := fun _ _ => None;
     env_interfere := fun t fs =>
       if (t =? 12)%nat
       then delete "/proc/42/status" (delete "/proc/42" fs)
       else fs;
     env_atof := fun _ => 1%float;
     env_overflow := Yields "9223372036854771" |}.

(** A cgroup v2 host with a process 42 of 20000 kB resident. *)
Definition host_v2 : world :=
  {| w_fs := list_to_map
               [("/sys/fs/cgroup", Dir);
                ("/sys/fs/cgroup/cgroup.controllers", File ("cpu memory pids" +:+ nl));
                ("/proc/42", Dir);
                ("/proc/42/status", File (status_text "20000" "0"))];
     w_log := [] |}.

(** A host without cgroup markers, with a process 42. *)
Definition host_bare : world :=
  {| w_fs := list_to_map
               [("/proc/42", Dir);
                ("/proc/42/status", File (status_text "20000" "0"))];
     w_log := [] |}.

(** A cgroup v2 host on which an earlier run has left its directories. *)
Definition host_stale : world :=
  {| w_fs := list_to_map
               [("/sys/fs/cgroup", Dir);
                ("/sys/fs/cgroup/cgroup.controllers", File ("cpu memory pids" +:+ nl));
                ("/sys/fs/cgroup/swapout", Dir);
                ("/sys/fs/cgroup/swapout/42", Dir);
                ("/sys/fs/cgroup/swapout/42/memory.high", File ("1073741824" +:+ nl));
                ("/proc/42", Dir);
                ("/proc/42/status", File (status_text "20000" "0"))];
     w_log := [] |}.

(** [host_stale], with a limit file from which [read_file] gets no bytes. *)
Definition host_blank : world :=
  {| w_fs := <["/sys/fs/cgroup/swapout/42/memory.high" := File ""]> (w_fs host_stale);
     w_log := [] |}.

(** A cgroup v1 host with a process 42 of 1000 kB resident: the memory
    controller is mounted, and a new group has no limit file to be read. *)
Definition host_v1 : world :=
  {| w_fs := list_to_map
               [("/sys/fs/cgroup", Dir);
                ("/sys/fs/cgroup/memory", Dir);
                ("/proc/42", Dir);
                ("/proc/42/status", File (status_text "1000" "0"))];
     w_log := [] |}.

(** [host_v1] on which an earlier run has left the group of pid 42, with a
    limit file from which [read_file] gets no bytes. *)
Definition host_v1_blank : world :=
  {| w_fs := <["/sys/fs/cgroup/memory/swapout" := Dir]>
               (<["/sys/fs/cgroup/memory/swapout/42" := Dir]>
                  (<["/sys/fs/cgroup/memory/swapout/42/memory.limit_in_bytes" := File ""]>
                     (w_fs host_v1)));
     w_log := [] |}.

(** [quiet_env] in a build with a checked [strcpy]: a copy past the end of
    a buffer aborts the process (SIGABRT, status 134). *)
Definition fortified_env : env :=
  {| env_fault := fun _ _ => None;
     env_interfere := fun _ fs => fs;
     env_atof := fun _ => 1%float;
     env_overflow := Aborts 134 |}.

(** The kernel rejects what is written to the limit file (EINVAL, when the
    stream is flushed); nothing else fails. *)
Definition rejecting_env : env :=
  {| env_fault := fun _ c =>
       match c with
       | Write f _ =>
           if String.eqb f "/sys/fs/cgroup/swapout/42/memory.high"
           then Some (Unflushed 0) else None
       | _ => None
       end;
     env_interfere := fun _ fs => fs;
     env_atof := fun _ => 1%float;
     env_overflow := Aborts 134 |}.

Definition host_kthread : world :=
  {| w_fs := <["/proc/42/status" := File kthread_status]> (w_fs host_v2);
     w_log := [] |}.

(** The variables after [-n 1]. *)
Definition config_n1 : config :=
  {| limit_mb := 8; target_rss_kb := 16384; interval := 1%float;
     max_iter := 1; quiet := false |}.

(** The run of the tool on [host_v2] with the command line [swapout 42],
    step by step. *)
Definition demo_alive : bool * world :=
  file_exists quiet_env (proc_path 42) host_v2.

Definition demo_setup : Z * cgroup_ctx_t * world :=
  setup_cgroup_for_pid quiet_env 42 false demo_alive.2.

Definition demo_apply : Z * world :=
  apply_low_limit quiet_env demo_setup.1.2 8 false demo_setup.2.

Definition demo_stale_setup : Z * cgroup_ctx_t * world :=
  setup_cgroup_for_pid quiet_env 42 false host_stale.

Definition demo_blank_setup : Z * cgroup_ctx_t * world :=
  setup_cgroup_for_pid quiet_env 42 false host_blank.

Definition demo_v1_blank_setup : Z * cgroup_ctx_t * world :=
  setup_cgroup_for_pid quiet_env 42 false host_v1_blank.

(** The last [n] events of a log. *)
Definition last_events (n : nat) (w : world) : list event :=
  drop (length (w_log w) - n) (w_log w).

(** * Vocabulary of the further properties *)

(** Options with values the option loop replaces by the defaults, and the
    variables they leave. *)
Definition demo_opts : list (ascii * string) :=
  [("m"%char, "-3"); ("r"%char, "99999999999999999999");
   ("n"%char, "4294967296"); ("q"%char, ""); ("i"%char, "x")].

Definition demo_config : config :=
  {| limit_mb := 8; target_rss_kb := LONG_MAX; interval := 1%float;
     max_iter := 60; quiet := true |}.

(** ** Texts *)

(** Whether every byte of a text satisfies a test. *)
Fixpoint str_all (f : ascii -> bool) (s : string) : bool :=
  match s with
  | EmptyString => true
  | String c r => f c && str_all f r
  end.

(** ** The status text the kernel prints *)

(** A size line of [/proc/<pid>/status]: the tag, padding, the number of
    kilobytes, the unit and the newline. *)
Definition size_line (tag pad : string) (kb : Z) : string :=
  tag +:+ pad +:+ pretty kb +:+ " kB" +:+ nl.

(** Padding between a tag and its number: no digit, no newline, no NUL. *)
Definition padding (pad : string) : bool :=
  str_all (fun ch => negb (isdigit ch) && negb (Ascii.eqb ch LF)
                     && negb (Ascii.eqb ch NUL)) pad.

(** One line of text, newline included. *)
Definition is_line (l : string) : Prop :=
  exists body, l = body +:+ nl /\ str_all (fun ch => negb (Ascii.eqb ch LF)) body = true.

(** A line of the status text that is not a size line the sampler looks
    for, and fits its buffer. *)
Definition other_line (l : string) : Prop :=
  is_line l
  /\ (String.length l <= 255)%nat
  /\ starts_with "VmRSS:" (c_str l) = false
  /\ starts_with "VmSwap:" (c_str l) = false.

(** The text made of the given lines. *)
Definition join (ls : list string) : string := fold_right String.append "" ls.

(** ** What a run may touch *)

Definition is_rmdir (e : event) : bool :=
  match e.1 with Rmdir _ => true | _ => false end.

(** The calls of a run for pid [p] that change the host stay within the
    tool's own places: a [mkdir] is of the hierarchy root, of the [swapout]
    parent or of the group of [p]; a write is of the pid line to the
    [cgroup.procs] of that group or goes to its limit file; an [rmdir] is
    of that group. *)
Definition touches_own (p : Z) (e : event) : Prop :=
  match e.1 with
  | Mkdir d =>
      exists v, v <> CGROUP_NONE
                /\ (d = cgroup_root v \/ d = cgroup_base v \/ d = group_path v p)
  | Write f d =>
      exists v, v <> CGROUP_NONE
                /\ ((f = procs_of v p /\ d = pid_line p) \/ f = limit_of v p)
  | Rmdir d => exists v, v <> CGROUP_NONE /\ d = group_path v p
  | Stat _ | Read _ | Nanosleep _ => True
  end.

(** The iteration bound [main] works with: what the option loop leaves,
    when it lets [main] go on. *)
Definition iterations (E : env) (opts : list (ascii * string)) : Z :=
  match getopt_loop E opts defaults with
  | inl c => max_iter c
  | inr _ => 0
  end.

(** The command lines on which [main] returns before its first system
    call: an option that ends the loop, no pid argument, or a pid argument
    that [atoi] does not read as a positive number. *)
Definition rejected (E : env) (opts : list (ascii * string)) (args : list string) : Prop :=
  match getopt_loop E opts defaults, args with
  | inr _, _ => True
  | inl _, [] => True
  | inl _, a :: _ => atoi a <= 0
  end.

(** The limit file of the group of pid 42 cannot be opened for writing
    (EACCES); every other call goes through. *)
Definition refusing_env : env :=
  {| env_fault := fun _ c =>
       match c with
       | Write f _ =>
           if String.eqb f "/sys/fs/cgroup/swapout/42/memory.high"
           then Some (Fail 13) else None
       | _ => None
       end;
     env_interfere := fun _ fs => fs;
     env_atof := fun _ => 1%float;
     env_overflow := Yields "9223372036854771" |}.

(** ** Computations that only observe *)

(** [only_observes E m]: whatever [m] does, the file system it leaves is
    what the environment alone has made of it during the calls of [m]. *)
Definition only_observes {A} (E : env) (m : M A) : Prop :=
  forall w, exists evs,
    w_log (m w).2 = w_log w ++ evs
    /\ w_fs (m w).2 = ambient E (length (w_log w)) (length evs) (w_fs w).

(** [host_stale], with a limit file that holds 130 digits and a newline. *)
Definition long_limit : string :=
  "1234567890123456789012345678901234567890123456789012345678901234567890"
  +:+ "123456789012345678901234567890123456789012345678901234567890".

Definition host_long : world :=
  {| w_fs := <["/sys/fs/cgroup/swapout/42/memory.high" := File (long_limit +:+ nl)]>
               (w_fs host_stale);
     w_log := [] |}.

Definition demo_long_setup : Z * cgroup_ctx_t * world :=
  setup_cgroup_for_pid quiet_env 42 false host_long.

(** * Proofs *)

(** ** Texts and decimal numbers *)

Lemma str_app_cons c a b : String c a +:+ b = String c (a +:+ b).
Proof. reflexivity. Qed.

Lemma str_app_nil_l b : "" +:+ b = b.
Proof. reflexivity. Qed.

Lemma str_app_nil_r a : a +:+ "" = a.
Proof. induction a as [| c a IH]; [reflexivity |]. now rewrite str_app_cons, IH. Qed.

Lemma str_app_assoc a b c : (a +:+ b) +:+ c = a +:+ (b +:+ c).
Proof.
  induction a as [| ch a IH]; [reflexivity |]. now rewrite !str_app_cons, IH.
Qed.

Lemma str_length_app a b :
  String.length (a +:+ b) = (String.length a + String.length b)%nat.
Proof.
  induction a as [| ch a IH]; [reflexivity |]. rewrite str_app_cons. simpl. now rewrite IH.
Qed.

Lemma str_take_all n : forall s, (String.length s <= n)%nat -> str_take n s = s.
Proof.
  induction n as [| n IH]; intros [| c s] H; simpl in *; try reflexivity; [lia |].
  rewrite IH; [reflexivity | lia].
Qed.

Lemma str_take_app n : forall a b,
  (n <= String.length a)%nat -> str_take n (a +:+ b) = str_take n a.
Proof.
  induction n as [| n IH]; intros [| c a] b H; simpl in H; try reflexivity; [lia |].
  rewrite str_app_cons. simpl. now rewrite IH by lia.
Qed.

Lemma str_take_take n : forall s, str_take n (str_take n s) = str_take n s.
Proof.
  induction n as [| n IH]; intros [| c s]; simpl; try reflexivity. now rewrite IH.
Qed.

Lemma str_take_full n : forall s,
  (n <= String.length s)%nat -> String.length (str_take n s) = n.
Proof.
  induction n as [| n IH]; intros [| c s] H; simpl in *; try reflexivity; [lia |].
  now rewrite IH by lia.
Qed.

Lemma str_all_app f a b : str_all f (a +:+ b) = str_all f a && str_all f b.
Proof.
  induction a as [| ch a IH]; [reflexivity |].
  rewrite str_app_cons. simpl. now rewrite IH, andb_assoc.
Qed.

Lemma str_all_impl (f g : ascii -> bool) s :
  (forall ch, f ch = true -> g ch = true) -> str_all f s = true -> str_all g s = true.
Proof.
  intros Hfg. induction s as [| ch s IH]; simpl; [reflexivity |].
  intros [Hch Hs]%andb_true_iff. now rewrite (Hfg _ Hch), IH.
Qed.

Lemma digits_app a : forall rest acc,
  str_all isdigit a = true -> digits (a +:+ rest) acc = digits rest (digits a acc).
Proof.
  induction a as [| ch a IH]; intros rest acc; [reflexivity |].
  rewrite str_app_cons. simpl. intros [Hch Ha]%andb_true_iff. rewrite Hch. now apply IH.
Qed.

Lemma pretty_N_char_digit m :
  (m < 10)%N ->
  isdigit (pretty_N_char m) = true /\ digit_val (pretty_N_char m) = Z.of_N m.
Proof.
  intros Hm.
  assert (H : (m = 0 \/ m = 1 \/ m = 2 \/ m = 3 \/ m = 4 \/ m = 5 \/ m = 6
               \/ m = 7 \/ m = 8 \/ m = 9)%N) by lia.
  repeat (destruct H as [-> | H]; [split; reflexivity |]). subst. split; reflexivity.
Qed.

Lemma pretty_N_go_app x : forall s, pretty_N_go x s = pretty_N_go x "" +:+ s.
Proof.
  induction (N.lt_wf_0 x) as [x _ IH]; intros s.
  destruct (N.eq_dec x 0%N) as [-> | Hx].
  - now rewrite !pretty_N_go_0.
  - assert (Hpos : (0 < x)%N) by lia.
    assert (Hlt : (x `div` 10 < x)%N) by (apply N.div_lt; lia).
    rewrite (pretty_N_go_step x s Hpos), (pretty_N_go_step x "" Hpos).
    rewrite (IH _ Hlt (String _ s)), (IH _ Hlt (String _ "")).
    now rewrite str_app_assoc.
Qed.

Lemma pretty_N_go_snoc x :
  (0 < x)%N ->
  pretty_N_go x "" = pretty_N_go (x `div` 10) "" +:+ String (pretty_N_char (x `mod` 10)) "".
Proof.
  intros Hpos. rewrite (pretty_N_go_step x "" Hpos). apply pretty_N_go_app.
Qed.

(** The decimal text of a natural number: digits only, as many as the
    number needs, and [digits] reads the number back. *)
Lemma pretty_N_go_decimal x :
  str_all isdigit (pretty_N_go x "") = true
  /\ digits (pretty_N_go x "") 0 = Z.of_N x
  /\ ((0 < x)%N -> pretty_N_go x "" <> "")
  /\ (forall k, (x < 10 ^ k)%N -> (String.length (pretty_N_go x "") <= N.to_nat k)%nat).
Proof.
  induction (N.lt_wf_0 x) as [x _ IH].
  destruct (N.eq_dec x 0%N) as [-> | Hx].
  - rewrite pretty_N_go_0. repeat split; simpl; try lia.
  - assert (Hpos : (0 < x)%N) by lia.
    assert (Hlt : (x `div` 10 < x)%N) by (apply N.div_lt; lia).
    destruct (IH _ Hlt) as (Hall & Hval & _ & Hlen).
    assert (Hm : (x `mod` 10 < 10)%N) by (apply N.mod_lt; lia).
    destruct (pretty_N_char_digit _ Hm) as [Hd Hv].
    rewrite (pretty_N_go_snoc x Hpos).
    split; [| split; [| split]].
    + rewrite str_all_app, Hall. simpl. now rewrite Hd.
    + rewrite (digits_app _ _ _ Hall), Hval. simpl. rewrite Hd, Hv.
      pose proof (N.div_mod x 10 ltac:(lia)). lia.
    + intros _. destruct (pretty_N_go (x `div` 10) ""); discriminate.
    + intros k Hk. rewrite str_length_app. simpl.
      destruct (N.eq_dec k 0%N) as [-> | Hk0]; [simpl in Hk; lia |].
      assert (Hk' : (x `div` 10 < 10 ^ (k - 1))%N).
      { apply N.Div0.div_lt_upper_bound.
        rewrite <- N.pow_succ_r'. now replace (N.succ (k - 1)) with k by lia. }
      specialize (Hlen _ Hk'). lia.
Qed.

Lemma pretty_Z_decimal (n : Z) :
  0 <= n ->
  str_all isdigit (pretty n) = true
  /\ (forall rest, digits (pretty n +:+ rest) 0 = digits rest n)
  /\ pretty n <> ""
  /\ (forall k, 0 < k -> n < 10 ^ k -> (String.length (pretty n) <= Z.to_nat k)%nat).
Proof.
  intros Hn. destruct n as [| x | x]; [| | lia].
  - repeat split; try discriminate. intros k Hk _. simpl. lia.
  - change (pretty (Z.pos x)) with (pretty_N_go (N.pos x) "").
    destruct (pretty_N_go_decimal (N.pos x)) as (Hall & Hval & Hne & Hlen).
    split; [exact Hall |]. split; [| split].
    + intros rest. now rewrite (digits_app _ _ _ Hall), Hval.
    + apply Hne. lia.
    + intros k Hk Hlt. specialize (Hlen (Z.to_N k)).
      rewrite Z_N_nat in Hlen. apply Hlen.
      apply N2Z.inj_lt. rewrite N2Z.inj_pow, Z2N.id by lia. exact Hlt.
Qed.

(** ** Runs and the events they add to the log *)

Lemma emits_ret {A} (a : A) w : emits (ret a) w a [] w.
Proof. split; [reflexivity | now rewrite app_nil_r]. Qed.

Lemma emits_bind {A B} (m : M A) (k : A -> M B) w a e1 w1 b e2 w2 :
  emits m w a e1 w1 -> emits (k a) w1 b e2 w2 -> emits (bind m k) w b (e1 ++ e2) w2.
Proof.
  intros [Hm Hl1] [Hk Hl2]. split.
  - unfold bind. now rewrite Hm.
  - now rewrite Hl2, Hl1, app_assoc.
Qed.

Lemma emits_sys E c w : exists r w', emits (sys E c) w r [(c, r)] w'.
Proof.
  unfold emits, sys.
  destruct (match env_fault E (length (w_log w)) c with
            | Some (Fail e) => (Failed e, env_interfere E (length (w_log w)) (w_fs w))
            | Some (Partial n) => exec c (Some n) (env_interfere E (length (w_log w)) (w_fs w))
            | Some (Unflushed n) =>
                exec_unflushed c n (env_interfere E (length (w_log w)) (w_fs w))
            | None => exec c None (env_interfere E (length (w_log w)) (w_fs w))
            end) as [r fs2].
  eauto.
Qed.


(** ** The poll loop *)

Section Polling.

Context (p : Z) (c : config).

Lemma sleep_double_emits E w :
  exists sl w', emits (sleep_double E (interval c)) w tt sl w' /\ sleep_tr c sl.
Proof.
  unfold sleep_double, sleep_tr.
  destruct (PrimFloat.leb (interval c) 0).
  - exists [], w. split; [apply emits_ret | reflexivity].
  - destruct (emits_sys E (Nanosleep (interval c)) w) as (r & w' & Hs).
    exists [(Nanosleep (interval c), r)], w'. split; [| eauto].
    change [(Nanosleep (interval c), r)] with ([(Nanosleep (interval c), r)] ++ []).
    eapply emits_bind; [exact Hs | apply emits_ret].
Qed.

Lemma read_proc_meminfo_emits E w :
  exists r w', emits (read_proc_meminfo E p) w (sample_of p r) [(Read (status_path p), r)] w'.
Proof.
  destruct (emits_sys E (Read (status_path p)) w) as (r & w' & Hs).
  exists r, w'. unfold read_proc_meminfo.
  change [(Read (status_path p), r)] with ([(Read (status_path p), r)] ++ []).
  eapply emits_bind; [exact Hs | apply emits_ret].
Qed.

(** The loop ends, within the fuel [main] gives it, and its events have
    the shape [polls]. *)
Lemma poll_loop_polls E fuel : forall iter w,
  (Z.to_nat (max_iter c - iter) <= fuel)%nat ->
  exists iter' st evs w',
    emits (poll_loop E fuel p c iter) w (Some (iter', st)) evs w'
    /\ polls p c (Z.to_nat (max_iter c - iter)) evs st.
Proof.
  induction fuel as [| fuel IH]; intros iter w Hfuel.
  - assert (Hge : max_iter c <= iter) by lia.
    exists iter, TimedOut, [], w. simpl.
    destruct (Z.ltb_spec iter (max_iter c)); [lia |].
    replace (Z.to_nat (max_iter c - iter)) with 0%nat by lia.
    split; [apply emits_ret | constructor].
  - simpl. destruct (Z.ltb_spec iter (max_iter c)) as [Hlt | Hge].
    + replace (Z.to_nat (max_iter c - iter))
        with (S (Z.to_nat (max_iter c - (iter + 1)))) by lia.
      destruct (read_proc_meminfo_emits E w) as (r & w1 & Hr).
      destruct (stops p c r) eqn:Hstop.
      * exists iter, (stop_of p r), [(Read (status_path p), r)], w1. split.
        -- change [(Read (status_path p), r)] with ([(Read (status_path p), r)] ++ []).
           eapply emits_bind; [exact Hr |].
           unfold stops, stop_of in *. destruct (sample_of p r).
           ++ rewrite Hstop. apply emits_ret.
           ++ apply emits_ret.
        -- now constructor.
      * destruct (sleep_double_emits E w1) as (sl & w2 & Hsl & Hshape).
        destruct (IH (iter + 1) w2) as (iter' & st & evs & w3 & Hrec & Hpolls); [lia |].
        exists iter', st, ((Read (status_path p), r) :: sl ++ evs), w3. split.
        -- change ((Read (status_path p), r) :: sl ++ evs)
             with ([(Read (status_path p), r)] ++ (sl ++ evs)).
           eapply emits_bind; [exact Hr |].
           unfold stops in Hstop. destruct (sample_of p r); [| discriminate].
           rewrite Hstop.
           eapply emits_bind; [exact Hsl | exact Hrec].
        -- now constructor.
    + exists iter, TimedOut, [], w.
      replace (Z.to_nat (max_iter c - iter)) with 0%nat by lia.
      split; [apply emits_ret | constructor].
Qed.

End Polling.

(** ** Facts about the shape of the poll events *)

Lemma sleep_tr_samples c sl : sleep_tr c sl -> sample_results sl = [].
Proof.
  unfold sleep_tr. destruct (PrimFloat.leb (interval c) 0).
  - now intros ->.
  - now intros [r ->].
Qed.

Lemma sample_results_app l1 l2 :
  sample_results (l1 ++ l2) = sample_results l1 ++ sample_results l2.
Proof. unfold sample_results. apply omap_app. Qed.

Lemma stop_of_not_timed_out p r : stop_of p r <> TimedOut.
Proof. unfold stop_of. now destruct (sample_of p r). Qed.

Lemma polls_samples p c n evs st :
  polls p c n evs st ->
  (length (sample_results evs) <= n)%nat
  /\ (forall j r, sample_results evs !! j = Some r -> stops p c r = true ->
                  S j = length (sample_results evs) /\ st = stop_of p r)
  /\ (st = TimedOut -> length (sample_results evs) = n)
  /\ (st <> TimedOut ->
      exists j r, S j = length (sample_results evs)
                  /\ sample_results evs !! j = Some r /\ stops p c r = true).
Proof.
  induction 1 as [| n r Hstop | n r sl evs st Hgo Hsl Hpolls IH].
  - simpl. split; [lia |]. split; [| split].
    + intros j r Hj. discriminate.
    + reflexivity.
    + congruence.
  - simpl. split; [lia |]. split; [| split].
    + intros j r' Hj Hr'. destruct j; simpl in Hj; [| discriminate].
      inversion Hj; subst. auto.
    + intros Hst. now apply stop_of_not_timed_out in Hst.
    + intros _. exists 0%nat, r. auto.
  - destruct IH as (Hlen & Hstopping & Htimeout & Hbreak).
    change ((Read (status_path p), r) :: sl ++ evs)
      with ([(Read (status_path p), r)] ++ sl ++ evs).
    rewrite !sample_results_app, (sleep_tr_samples c sl Hsl). simpl.
    split; [lia |]. split; [| split].
    + intros j r' Hj Hr'. destruct j as [| j]; simpl in Hj.
      * congruence.
      * destruct (Hstopping j r' Hj Hr') as [<- Hst]. auto.
    + intros Hst. now rewrite (Htimeout Hst).
    + intros Hst. destruct (Hbreak Hst) as (j & r' & Hj & Hr' & Hs').
      exists (S j), r'. simpl. auto.
Qed.

Lemma polls_placement p c n evs st :
  PrimFloat.leb (interval c) 0 = false ->
  polls p c n evs st ->
  sleep_after_continuing_samples p c evs.
Proof.
  intros Hiv. unfold sleep_after_continuing_samples.
  induction 1 as [| n r Hstop | n r sl evs st Hgo Hsl Hpolls IH].
  - split; intros i e Hi; discriminate.
  - split; intros i e Hi He.
    + destruct i; simpl in Hi; [| discriminate]. now inversion Hi; subst.
    + destruct i; simpl in Hi; [| discriminate]. inversion Hi; subst. simpl.
      now rewrite Hstop.
  - unfold sleep_tr in Hsl. rewrite Hiv in Hsl. destruct Hsl as [rs ->].
    destruct IH as [IHsleep IHsample]. simpl. split; intros i e Hi He.
    + destruct i as [| [| i]]; simpl in Hi.
      * now inversion Hi; subst.
      * exists 0%nat, r. auto.
      * destruct (IHsleep i e Hi He) as (i' & r' & -> & Hi' & Hr').
        exists (S (S i')), r'. auto.
    + destruct i as [| [| i]]; simpl in Hi.
      * inversion Hi; subst. simpl. rewrite Hgo. eauto.
      * now inversion Hi; subst.
      * exact (IHsample i e Hi He).
Qed.

Lemma readings_step p c r sl evs :
  sleep_tr c sl ->
  readings p ((Read (status_path p), r) :: sl ++ evs)
  = match sample_of p r with
    | Some mi => mi :: readings p evs
    | None => readings p evs
    end.
Proof.
  intros Hsl. unfold readings.
  change ((Read (status_path p), r) :: sl ++ evs)
    with ([(Read (status_path p), r)] ++ sl ++ evs).
  rewrite !sample_results_app, (sleep_tr_samples c sl Hsl). reflexivity.
Qed.

Lemma polls_readings p c n evs st :
  polls p c n evs st ->
  (length (readings p evs) <= n)%nat
  /\ (forall j mi, readings p evs !! j = Some mi -> rss_kb mi <= target_rss_kb c ->
                   S j = length (readings p evs) /\ st = Converged)
  /\ match st with
     | TimedOut => length (readings p evs) = n
     | Converged =>
         exists j mi, S j = length (readings p evs)
                      /\ readings p evs !! j = Some mi
                      /\ rss_kb mi <= target_rss_kb c
     | ProcessVanished => (length (readings p evs) < n)%nat
     end.
Proof.
  induction 1 as [| n r Hstop | n r sl evs st Hgo Hsl Hpolls IH].
  - split; [simpl; lia |]. split; [| reflexivity]. intros j mi Hj. discriminate.
  - unfold readings, stops, stop_of in *. simpl.
    destruct (sample_of p r) as [mi |] eqn:Hs.
    + apply Z.leb_le in Hstop. split; [simpl; lia |]. split.
      * intros j mi' Hj _. destruct j; simpl in Hj; [auto | discriminate].
      * exists 0%nat, mi. auto.
    + split; [simpl; lia |]. split; [| simpl; lia]. intros j mi Hj. discriminate.
  - destruct IH as (Hlen & Hconv & Hst).
    rewrite (readings_step p c r sl evs Hsl).
    unfold stops in Hgo. destruct (sample_of p r) as [mi |]; [| discriminate].
    apply Z.leb_gt in Hgo.
    generalize dependent (readings p evs). intros rs Hlen Hconv Hst.
    split; [simpl; lia |]. split.
    + intros j mi' Hj Hle. destruct j as [| j]; simpl in Hj.
      * inversion Hj; subst. lia.
      * destruct (Hconv j mi' Hj Hle) as [Hl Hc]. simpl. auto.
    + destruct st.
      * destruct Hst as (j & mi' & Hj & Hl & Hle). exists (S j), mi'. simpl. auto.
      * simpl. lia.
      * simpl. lia.
Qed.

(** ** Claims about the poll loop *)

(** C3.  With [max_iter = N] the poll loop ends and has taken at most [N]
    samples.  It has taken fewer than [N] exactly when one of the samples
    before the [N]-th found the status file unreadable or the resident size
    at or below the target; such a sample is the last one, and the loop is
    left as [ProcessVanished], respectively [Converged].  The same holds
    when only the reads that succeeded are counted as samples: there are at
    most [N] of them, and fewer exactly when one before the [N]-th is at or
    below the target or some read of the status file failed. *)
Theorem poll_loop_sample_count (E : env) (p : Z) (c : config) (w : world) :
  exists iter st evs w',
    poll_loop E (Z.to_nat (max_iter c)) p c 0 w = (Some (iter, st), w')
    /\ w_log w' = w_log w ++ evs
    /\ (length (sample_results evs) <= Z.to_nat (max_iter c))%nat
    /\ (Z.of_nat (length (sample_results evs)) < max_iter c
        <-> exists j r, Z.of_nat j + 1 < max_iter c
                        /\ sample_results evs !! j = Some r
                        /\ stops p c r = true)
    /\ (forall j r, sample_results evs !! j = Some r -> stops p c r = true ->
          sample_results evs !! (S j) = None
          /\ st = match sample_of p r with
                  | None => ProcessVanished
                  | Some _ => Converged
                  end)
    /\ (st = TimedOut <-> forall r, r ∈ sample_results evs -> stops p c r = false)
    /\ (length (readings p evs) <= Z.to_nat (max_iter c))%nat
    /\ (Z.of_nat (length (readings p evs)) < max_iter c
        <-> (exists j mi, Z.of_nat j + 1 < max_iter c
                          /\ readings p evs !! j = Some mi
                          /\ rss_kb mi <= target_rss_kb c)
            \/ (exists r, r ∈ sample_results evs /\ sample_of p r = None)).
Proof.
  destruct (poll_loop_polls p c E (Z.to_nat (max_iter c)) 0 w)
    as (iter & st & evs & w' & [Hrun Hlog] & Hpolls).
  { replace (max_iter c - 0) with (max_iter c) by lia. lia. }
  replace (max_iter c - 0) with (max_iter c) in Hpolls by lia.
  destruct (polls_samples _ _ _ _ _ Hpolls) as (Hlen & Hstopping & Htimeout & Hbreak).
  exists iter, st, evs, w'.
  split; [assumption |]. split; [assumption |]. split; [assumption |].
  destruct (polls_readings _ _ _ _ _ Hpolls) as (Rlen & Rconv & Rst).
  split; [split |]; [| | split; [| split; [split |]]]; [| | | | | split; [| split]].
  - intros Hfew.
    assert (Hst : st <> TimedOut) by (intros Hst; apply Htimeout in Hst; lia).
    destruct (Hbreak Hst) as (j & r & Hj & Hr & Hs). exists j, r.
    repeat split; try assumption. lia.
  - intros (j & r & Hj & Hr & Hs).
    destruct (Hstopping j r Hr Hs) as [Hlast _]. lia.
  - intros j r Hr Hs. destruct (Hstopping j r Hr Hs) as [Hlast ->]. split.
    + apply lookup_ge_None. lia.
    + reflexivity.
  - intros Hst r Hin. destruct (stops p c r) eqn:Hs; [| reflexivity].
    apply list_elem_of_lookup in Hin as [j Hj].
    destruct (Hstopping j r Hj Hs) as [_ Hst']. rewrite Hst in Hst'.
    symmetry in Hst'. now apply stop_of_not_timed_out in Hst'.
  - intros Hall. destruct st; try reflexivity.
    + destruct Hbreak as (j & r & _ & Hr & Hs); [discriminate |].
      apply list_elem_of_lookup_2 in Hr. rewrite (Hall r Hr) in Hs. discriminate.
    + destruct Hbreak as (j & r & _ & Hr & Hs); [discriminate |].
      apply list_elem_of_lookup_2 in Hr. rewrite (Hall r Hr) in Hs. discriminate.
  - exact Rlen.
  - intros Hfew. destruct st.
    + destruct Rst as (j & mi & Hj & Hmi & Hle). left. exists j, mi.
      repeat split; try assumption. lia.
    + right. destruct Hbreak as (j & r & _ & Hr & Hs); [discriminate |].
      destruct (Hstopping j r Hr Hs) as [_ Hst]. exists r.
      split; [eapply list_elem_of_lookup_2; exact Hr |].
      unfold stop_of in Hst. destruct (sample_of p r); [discriminate | reflexivity].
    + lia.
  - intros [(j & mi & Hj & Hmi & Hle) | (r & Hin & Hnone)].
    + destruct (Rconv j mi Hmi Hle) as [Hlast _]. lia.
    + apply list_elem_of_lookup in Hin as [j Hj].
      assert (Hs : stops p c r = true) by (unfold stops; now rewrite Hnone).
      destruct (Hstopping j r Hj Hs) as [_ Hst]. unfold stop_of in Hst.
      rewrite Hnone in Hst. subst st. lia.
Qed.

Lemma poll_events_emits E p c w r evs w' :
  emits (poll_loop E (Z.to_nat (max_iter c)) p c 0) w r evs w' ->
  poll_events E p c w = evs.
Proof.
  intros [Hrun Hlog]. unfold poll_events. rewrite Hrun. simpl.
  rewrite Hlog. apply drop_app_length.
Qed.

(** C5, as stated, fails: with [-n 1] and a process that stays above the
    target, the loop takes its one sample and then sleeps, with no sample to
    follow. *)
Lemma sleep_after_final_sample :
  ~ sleeps_only_between_samples (poll_events quiet_env 42 config_n1 host_v2).
Proof.
  intros Hclaim.
  destruct (Hclaim 1%nat (Nanosleep 1%float, Done)) as [_ (b & Hb & _)].
  - vm_compute. reflexivity.
  - reflexivity.
  - vm_compute in Hb. discriminate.
Qed.

(** C5, amended.  For a configuration whose interval is not [<= 0] (as after
    the option loop) the poll loop ends, and in its events a sleep follows
    every sample that does not end the loop, the [max_iter]-th included;
    there is no sleep before the first sample and nothing after a sample
    that ends the loop. *)
Theorem poll_loop_sleep_placement (E : env) (p : Z) (c : config) (w : world) :
  PrimFloat.leb (interval c) 0%float = false ->
  (exists iter st w', poll_loop E (Z.to_nat (max_iter c)) p c 0 w = (Some (iter, st), w'))
  /\ sleep_after_continuing_samples p c (poll_events E p c w)
  /\ (forall e, head (poll_events E p c w) = Some e -> is_sample e = true).
Proof.
  intros Hiv.
  destruct (poll_loop_polls p c E (Z.to_nat (max_iter c)) 0 w)
    as (iter & st & evs & w' & Hrun & Hpolls).
  { replace (max_iter c - 0) with (max_iter c) by lia. lia. }
  rewrite (poll_events_emits _ _ _ _ _ _ _ Hrun).
  split; [| split].
  - exists iter, st, w'. apply Hrun.
  - eapply polls_placement; eassumption.
  - intros e He. inversion Hpolls; subst; simpl in He; inversion He; reflexivity.
Qed.

Lemma poll_loop_sleep_placement_witness :
  PrimFloat.leb (interval config_n1) 0%float = false
  /\ sleep_after_continuing_samples 42 config_n1 (poll_events quiet_env 42 config_n1 host_v2).
Proof.
  split; [reflexivity |].
  apply (poll_loop_sleep_placement quiet_env 42 config_n1 host_v2). reflexivity.
Defined.

(** ** Provisioning: the shape of its runs *)

Lemma emits_eq {A} (m : M A) w a evs evs' w' :
  emits m w a evs w' -> evs = evs' -> emits m w a evs' w'.
Proof. now intros H <-. Qed.

Ltac run_with H := eapply emits_bind; [exact H | cbv beta].
Ltac tidy_events := simpl; rewrite ?app_nil_r, <- ?app_assoc; reflexivity.

Lemma file_exists_emits E path w :
  exists r w', emits (file_exists E path) w (is_found r) [(Stat path, r)] w'.
Proof.
  destruct (emits_sys E (Stat path) w) as (r & w' & Hs).
  exists r, w'. unfold file_exists.
  eapply emits_eq; [run_with Hs; apply emits_ret | tidy_events].
Qed.

Lemma write_file_emits E path val w :
  exists r w',
    emits (write_file E path val) w (if full_write val r then 0 else -1)
      [(Write path val, r)] w'.
Proof.
  destruct (emits_sys E (Write path val) w) as (r & w' & Hs).
  exists r, w'. unfold write_file.
  eapply emits_eq; [run_with Hs | tidy_events].
  destruct r; apply emits_ret.
Qed.

Lemma ensure_dir_emits E path w :
  exists r evs w', emits (ensure_dir E path) w r evs w' /\ ensure_dir_tr path evs r.
Proof.
  destruct (emits_sys E (Stat path) w) as (s & w1 & Hs).
  destruct (emits_sys E (Mkdir path) w1) as (m & w2 & Hm).
  unfold ensure_dir.
  destruct (is_found s) eqn:Hfound.
  - destruct s as [| | [|] | |]; try discriminate.
    + exists None, [(Stat path, Found true)], w1. split; [| constructor].
      eapply emits_eq; [run_with Hs; apply emits_ret | tidy_events].
    + exists (Some ENOTDIR), [(Stat path, Found false)], w1. split; [| constructor].
      eapply emits_eq; [run_with Hs; apply emits_ret | tidy_events].
  - exists (match m with Failed e => Some e | _ => None end),
      [(Stat path, s); (Mkdir path, m)], w2.
    split; [| now constructor].
    eapply emits_eq; [run_with Hs | tidy_events].
    destruct s; try discriminate;
      (eapply emits_eq; [run_with Hm | tidy_events]); destruct m; apply emits_ret.
Qed.

Lemma detect_emits E w :
  exists v evs w', emits (detect_cgroup_version E) w v evs w' /\ detect_tr evs v.
Proof.
  destruct (file_exists_emits E controllers_marker w) as (r1 & w1 & H1).
  destruct (file_exists_emits E memory_marker w1) as (r2 & w2 & H2).
  unfold detect_cgroup_version.
  destruct (is_found r1) eqn:F1.
  - exists CGROUP_V2, [(Stat controllers_marker, r1)], w1. split; [| now constructor].
    eapply emits_eq; [run_with H1; apply emits_ret | tidy_events].
  - destruct (is_found r2) eqn:F2.
    + exists CGROUP_V1, [(Stat controllers_marker, r1); (Stat memory_marker, r2)], w2.
      split; [| now constructor].
      eapply emits_eq; [run_with H1; run_with H2; apply emits_ret | tidy_events].
    + exists CGROUP_NONE, [(Stat controllers_marker, r1); (Stat memory_marker, r2)], w2.
      split; [| now constructor].
      eapply emits_eq; [run_with H1; run_with H2; apply emits_ret | tidy_events].
Qed.

Lemma read_file_emits E path w :
  exists r w',
    emits (read_file E path) w
      (match r with Bytes d => Some (c_str d) | _ => None end) [(Read path, r)] w'.
Proof.
  destruct (emits_sys E (Read path) w) as (r & w' & Hs).
  exists r, w'. unfold read_file.
  eapply emits_eq; [run_with Hs; apply emits_ret | tidy_events].
Qed.

(** Every run of [setup_cgroup_for_pid] is one of the five of [setup_tr]. *)
Lemma setup_emits E p q w :
  exists res evs w',
    emits (setup_cgroup_for_pid E p q) w res evs w' /\ setup_tr p evs res.
Proof.
  destruct (detect_emits E w) as (v & e0 & w0 & Hd & Hdt).
  unfold setup_cgroup_for_pid.
  assert (Hcases : v = CGROUP_NONE \/ v <> CGROUP_NONE)
    by (destruct v; auto; right; discriminate).
  destruct Hcases as [-> | Hv].
  { exists (-1, ctx_detected CGROUP_NONE), e0, w0. split; [| now constructor].
    eapply emits_eq; [run_with Hd; apply emits_ret | tidy_events]. }
  destruct (ensure_dir_emits E (cgroup_root v) w0) as (r1 & e1 & w1 & H1 & T1).
  destruct (dir_failed r1) eqn:F1.
  { exists (-1, ctx_detected v), (e0 ++ e1), w1.
    split; [| eapply st_root_failed; eassumption].
    eapply emits_eq.
    - run_with Hd. destruct v; try congruence;
        (eapply emits_bind;
         [run_with H1; rewrite F1; apply emits_ret | apply emits_ret]).
    - tidy_events. }
  destruct (ensure_dir_emits E (cgroup_base v) w1) as (r2 & e2 & w2 & H2 & T2).
  destruct (dir_failed r2) eqn:F2.
  { exists (-1, ctx_detected v), (e0 ++ e1 ++ e2), w2.
    split; [| eapply st_base_failed; eassumption].
    eapply emits_eq.
    - run_with Hd. destruct v; try congruence;
        (eapply emits_bind;
         [run_with H1; rewrite F1; run_with H2; rewrite F2; apply emits_ret
         | apply emits_ret]).
    - tidy_events. }
  destruct (ensure_dir_emits E (group_path v p) w2) as (r3 & e3 & w3 & H3 & T3).
  destruct (dir_failed r3) eqn:F3.
  { exists (-1, ctx_named v p), (e0 ++ e1 ++ e2 ++ e3), w3.
    split; [| eapply st_group_failed; eassumption].
    eapply emits_eq.
    - run_with Hd. destruct v; try congruence;
        (eapply emits_bind;
         [run_with H1; rewrite F1; run_with H2; rewrite F2; run_with H3; rewrite F3;
          apply emits_ret
         | apply emits_ret]).
    - tidy_events. }
  destruct (read_file_emits E (limit_of v p) w3) as (rd & w4 & Hrd).
  destruct (write_file_emits E (procs_of v p) (pid_line p) w4) as (wr & w5 & Hwr).
  exists (if full_write (pid_line p) wr then 0 else -1, ctx_backed_up v p rd),
    (e0 ++ e1 ++ e2 ++ e3
        ++ [(Read (limit_of v p), rd); (Write (procs_of v p) (pid_line p), wr)]), w5.
  split; [| eapply st_migrate; eassumption].
  eapply emits_eq.
  - run_with Hd. destruct v; try congruence;
      (eapply emits_bind;
       [run_with H1; rewrite F1; run_with H2; rewrite F2; run_with H3; rewrite F3;
        apply emits_ret
       | cbv beta iota; run_with Hrd; destruct rd;
         (run_with Hwr; destruct (full_write (pid_line p) wr); apply emits_ret)]).
  - tidy_events.
Qed.

(** ** Applying, restoring, cleaning up *)

Lemma apply_low_limit_emits E ctx mb q w :
  exists r w',
    emits (apply_low_limit E ctx mb q) w
      (if full_write (limit_line mb) r then 0 else -1)
      [(Write (limit_path ctx) (limit_line mb), r)] w'.
Proof.
  destruct (write_file_emits E (limit_path ctx) (limit_line mb) w) as (r & w' & Hw).
  exists r, w'. unfold apply_low_limit.
  replace (match ver ctx with
           | CGROUP_V2 => snprintf 64 (pretty (to_llong (mb * 1024 * 1024)) +:+ String LF "")
           | _ => snprintf 64 (pretty (to_llong (mb * 1024 * 1024)) +:+ String LF "")
           end) with (limit_line mb) by (now destruct (ver ctx)).
  eapply emits_eq; [run_with Hw | tidy_events].
  destruct (full_write (limit_line mb) r); apply emits_ret.
Qed.

(** [restore_limit] with a value that fits: its one write. *)
Lemma restore_limit_fits E ctx q w val :
  ver ctx <> CGROUP_NONE -> restore_value ctx = Some val ->
  exists r w',
    emits (restore_limit E ctx q) w Returns
      [(Write (limit_path ctx) (restore_text val), r)] w'.
Proof.
  intros Hv Hval.
  destruct (write_file_emits E (limit_path ctx) (restore_text val) w) as (r & w' & Hw).
  exists r, w'. unfold restore_limit. rewrite Hval.
  destruct (ver ctx); try congruence;
    (eapply emits_eq; [run_with Hw; apply emits_ret | tidy_events]).
Qed.

Lemma restore_limit_emits E ctx q w :
  ver ctx <> CGROUP_NONE ->
  exists e evs w', emits (restore_limit E ctx q) w e evs w' /\ restore_tr E ctx evs e.
Proof.
  intros Hv.
  destruct (restore_value ctx) as [val |] eqn:Hval.
  - destruct (restore_limit_fits E ctx q w val Hv Hval) as (r & w' & Hr).
    exists Returns, [(Write (limit_path ctx) (restore_text val), r)], w'.
    split; [exact Hr |]. apply rt_fits. unfold restore_line. now rewrite Hval.
  - assert (Hline : restore_line ctx = None) by (unfold restore_line; now rewrite Hval).
    destruct (env_overflow E) as [status | text] eqn:Ho.
    + exists (Aborted status), [], w. split; [| now apply rt_aborts].
      unfold restore_limit. rewrite Hval, Ho.
      destruct (ver ctx); try congruence; apply emits_ret.
    + destruct (write_file_emits E (limit_path ctx) (restore_text (c_str text)) w)
        as (r & w' & Hw).
      exists Returns, [(Write (limit_path ctx) (restore_text (c_str text)), r)], w'.
      split; [| now apply rt_yields].
      unfold restore_limit. rewrite Hval, Ho.
      destruct (ver ctx); try congruence;
        (eapply emits_eq; [run_with Hw; apply emits_ret | tidy_events]).
Qed.

(** What [restore_limit] adds to the log: at most one call, a write to the
    limit file. *)
Lemma restore_tr_shape E ctx revs e :
  restore_tr E ctx revs e ->
  (length revs <= 1)%nat
  /\ Forall (fun ev : event => exists data, ev.1 = Write (limit_path ctx) data) revs.
Proof.
  inversion 1; subst; (split; [simpl; lia |]); repeat constructor; simpl; eauto.
Qed.

Lemma cleanup_cgroup_emits E ctx q w :
  group_dir ctx <> "" ->
  exists r w', emits (cleanup_cgroup E ctx q) w tt [(Rmdir (group_dir ctx), r)] w'.
Proof.
  intros Hg.
  destruct (emits_sys E (Rmdir (group_dir ctx)) w) as (r & w' & Hs).
  exists r, w'. unfold cleanup_cgroup.
  destruct (String.eqb_spec (group_dir ctx) ""); [contradiction |].
  eapply emits_eq; [run_with Hs; apply emits_ret | tidy_events].
Qed.

Lemma group_path_nonempty v p : group_path v p <> "".
Proof. destruct v; discriminate. Qed.

(** After a successful setup the context names a version and a group. *)
Lemma setup_tr_ok p evs ctx :
  setup_tr p evs (0, ctx) ->
  exists v rd, v <> CGROUP_NONE /\ ctx = ctx_backed_up v p rd.
Proof.
  inversion 1; subst. eauto.
Qed.

Lemma ctx_backed_up_fields v p rd :
  ver (ctx_backed_up v p rd) = v
  /\ group_dir (ctx_backed_up v p rd) = group_path v p
  /\ procs_path (ctx_backed_up v p rd) = procs_of v p
  /\ limit_path (ctx_backed_up v p rd) = limit_of v p.
Proof. destruct rd; repeat split. Qed.

(** ** Every run of [main] ends, along one of the ways of [main_tr] *)

Lemma main_emits E opts args w :
  exists code evs w',
    emits (main E opts args) w (Some code) evs w' /\ main_tr E opts args evs code.
Proof.
  unfold main.
  destruct (getopt_loop E opts defaults) as [c | code] eqn:Hopts.
  2: { exists code, [], w. split; [apply emits_ret | now constructor]. }
  destruct args as [| a rest] eqn:Hargs.
  { exists 1, [], w. split; [apply emits_ret | eapply mt_no_pid; eauto]. }
  destruct (Z.leb_spec (atoi a) 0) as [Hpid | Hpid].
  { exists 1, [], w. split; [apply emits_ret | eapply mt_bad_pid; eauto]. }
  destruct (file_exists_emits E (proc_path (atoi a)) w) as (r & w1 & Hr).
  destruct (is_found r) eqn:Hfound.
  2: { exists 1, [(Stat (proc_path (atoi a)), r)], w1.
       split; [| eapply mt_no_process; eauto].
       eapply emits_eq; [run_with Hr; apply emits_ret | tidy_events]. }
  destruct (setup_emits E (atoi a) (quiet c) w1) as ([rc ctx] & evs & w2 & Hs & Ts).
  destruct (Z.eqb_spec rc 0) as [-> | Hrc].
  2: { exists 1, ((Stat (proc_path (atoi a)), r) :: evs), w2.
       split; [| eapply mt_setup_failed; eauto].
       eapply emits_eq.
       - run_with Hr. simpl. run_with Hs. simpl.
         destruct (Z.eqb_spec rc 0); [contradiction |]. apply emits_ret.
       - tidy_events. }
  destruct (setup_tr_ok _ _ _ Ts) as (v & rd & Hv & Hctx).
  destruct (ctx_backed_up_fields v (atoi a) rd) as (Fv & Fg & _ & _).
  rewrite <- Hctx in Fv, Fg.
  assert (Hver : ver ctx <> CGROUP_NONE) by congruence.
  assert (Hgd : group_dir ctx <> "")
    by (rewrite Fg; apply group_path_nonempty).
  destruct (apply_low_limit_emits E ctx (limit_mb c) (quiet c) w2) as (wr & w3 & Ha).
  destruct (full_write (limit_line (limit_mb c)) wr) eqn:Hwr.
  - destruct (poll_loop_polls (atoi a) c E (Z.to_nat (max_iter c)) 0 w3)
      as (iter & st & pevs & w4 & Hp & Tp).
    { replace (max_iter c - 0) with (max_iter c) by lia. lia. }
    replace (max_iter c - 0) with (max_iter c) in Tp by lia.
    destruct (restore_limit_emits E ctx (quiet c) w4 Hver) as (e & revs & w5 & Hrr & Tr).
    destruct e as [| status].
    + destruct (cleanup_cgroup_emits E ctx (quiet c) w5 Hgd) as (rm & w6 & Hrm).
      eexists 0, _, w6. split; [| eapply mt_polled with (rm := rm); eauto].
      eapply emits_eq.
      * run_with Hr. simpl. run_with Hs. simpl. run_with Ha. simpl.
        run_with Hp. run_with Hrr. run_with Hrm. apply emits_ret.
      * simpl. rewrite ?app_nil_r, <- ?app_assoc. reflexivity.
    + eexists status, _, w5. split; [| eapply mt_polled_aborted; eauto].
      eapply emits_eq.
      * run_with Hr. simpl. run_with Hs. simpl. run_with Ha. simpl.
        run_with Hp. run_with Hrr. apply emits_ret.
      * simpl. rewrite ?app_nil_r, <- ?app_assoc. reflexivity.
  - destruct (restore_limit_emits E ctx (quiet c) w3 Hver) as (e & revs & w5 & Hrr & Tr).
    destruct e as [| status].
    + destruct (cleanup_cgroup_emits E ctx (quiet c) w5 Hgd) as (rm & w6 & Hrm).
      eexists 1, _, w6. split; [| eapply mt_apply_failed with (rm := rm); eauto].
      eapply emits_eq.
      * run_with Hr. simpl. run_with Hs. simpl. run_with Ha. simpl.
        run_with Hrr. run_with Hrm. apply emits_ret.
      * simpl. rewrite ?app_nil_r, <- ?app_assoc. reflexivity.
    + eexists status, _, w5. split; [| eapply mt_apply_aborted; eauto].
      eapply emits_eq.
      * run_with Hr. simpl. run_with Hs. simpl. run_with Ha. simpl.
        run_with Hrr. apply emits_ret.
      * simpl. rewrite ?app_nil_r, <- ?app_assoc. reflexivity.
Qed.

Lemma polls_event_kinds p c n evs st :
  polls p c n evs st ->
  Forall (fun e => is_sample e = true \/ is_sleep e = true) evs.
Proof.
  induction 1 as [| n r Hstop | n r sl evs st Hgo Hsl Hpolls IH].
  - constructor.
  - constructor; [now left | constructor].
  - constructor; [now left |]. apply Forall_app. split; [| exact IH].
    unfold sleep_tr in Hsl. destruct (PrimFloat.leb (interval c) 0).
    + subst. constructor.
    + destruct Hsl as [rs ->]. constructor; [now right | constructor].
Qed.

(** A successful setup leaves a context with a version and a group
    directory, so that restore and cleanup do act on it. *)
Lemma setup_ok_ctx E p q w ctx w' :
  setup_cgroup_for_pid E p q w = ((0, ctx), w') ->
  ver ctx <> CGROUP_NONE /\ group_dir ctx <> "".
Proof.
  intros Hrun.
  destruct (setup_emits E p q w) as (res & evs & w2 & [Hs _] & Ts).
  rewrite Hrun in Hs. inversion Hs; subst.
  destruct (setup_tr_ok _ _ _ Ts) as (v & rd & Hv & ->).
  destruct (ctx_backed_up_fields v p rd) as (-> & -> & _ & _).
  split; [exact Hv | apply group_path_nonempty].
Qed.

(** ** Claims about the whole run *)

(** X20.  After a successful write of the memory ceiling, when the text
    [restore_limit] is to write fits its buffers (the original limit, or the
    fallback of cgroup v2), the poll loop ends, in whichever of its three
    states; then [restore_limit] issues its one write to the limit file and,
    whatever the result of that write, [cleanup_cgroup] issues its one
    [rmdir] of the group directory.  These two calls are the last of the run,
    nothing but samples and sleeps lies between the ceiling write and them,
    and [main] returns 0. *)
Theorem restore_then_cleanup_fits
  (E : env) (opts : list (ascii * string)) (args : list string) (w : world)
  (c : config) (a : string) (rest : list string)
  (w1 w2 w3 : world) (ctx : cgroup_ctx_t) (text : string) :
  getopt_loop E opts defaults = inl c ->
  args = a :: rest ->
  0 < atoi a ->
  file_exists E (proc_path (atoi a)) w = (true, w1) ->
  setup_cgroup_for_pid E (atoi a) (quiet c) w1 = ((0, ctx), w2) ->
  apply_low_limit E ctx (limit_mb c) (quiet c) w2 = (0, w3) ->
  restore_line ctx = Some text ->
  exists iter st pevs w4 rr w5 rm w6,
    poll_loop E (Z.to_nat (max_iter c)) (atoi a) c 0 w3 = (Some (iter, st), w4)
    /\ w_log w4 = w_log w3 ++ pevs
    /\ Forall (fun e => is_sample e = true \/ is_sleep e = true) pevs
    /\ restore_limit E ctx (quiet c) w4 = (Returns, w5)
    /\ w_log w5 = w_log w4 ++ [(Write (limit_path ctx) text, rr)]
    /\ cleanup_cgroup E ctx (quiet c) w5 = (tt, w6)
    /\ w_log w6 = w_log w5 ++ [(Rmdir (group_dir ctx), rm)]
    /\ main E opts args w = (Some 0, w6).
Proof.
  intros Hopts Hargs Hpid Halive Hsetup Happly Hline.
  destruct (setup_ok_ctx _ _ _ _ _ _ Hsetup) as [Hver Hgd].
  destruct (poll_loop_polls (atoi a) c E (Z.to_nat (max_iter c)) 0 w3)
    as (iter & st & pevs & w4 & [Hp Lp] & Tp).
  { replace (max_iter c - 0) with (max_iter c) by lia. lia. }
  unfold restore_line in Hline.
  destruct (restore_value ctx) as [val |] eqn:Hval; [| discriminate].
  injection Hline as <-.
  destruct (restore_limit_fits E ctx (quiet c) w4 val Hver Hval) as (rr & w5 & Hrr & Lrr).
  destruct (cleanup_cgroup_emits E ctx (quiet c) w5 Hgd) as (rm & w6 & Hrm & Lrm).
  exists iter, st, pevs, w4, rr, w5, rm, w6.
  repeat (split; [first [assumption | eapply polls_event_kinds; eassumption] |]).
  unfold main. rewrite Hopts, Hargs.
  destruct (Z.leb_spec (atoi a) 0) as [Hle | _]; [lia |].
  fold (proc_path (atoi a)).
  unfold bind at 1. rewrite Halive. simpl.
  unfold bind at 1. rewrite Hsetup. simpl.
  unfold bind at 1. rewrite Happly. simpl.
  unfold bind at 1. rewrite Hp.
  unfold bind at 1. rewrite Hrr.
  unfold bind at 1. rewrite Hrm. reflexivity.
Qed.

Lemma restore_then_cleanup_fits_witness :
  exists w' rr rm,
    main quiet_env [] ["42"] host_v2 = (Some 0, w')
    /\ last (w_log w') = Some (Rmdir "/sys/fs/cgroup/swapout/42", rm)
    /\ In (Write "/sys/fs/cgroup/swapout/42/memory.high" ("max" +:+ nl), rr) (w_log w').
Proof.
  destruct (restore_then_cleanup_fits quiet_env [] ["42"] host_v2 defaults "42" []
              demo_alive.2 demo_setup.2 demo_apply.2 demo_setup.1.2 ("max" +:+ nl))
    as (iter & st & pevs & w4 & rr & w5 & rm & w6
        & _ & _ & _ & _ & L5 & _ & L6 & Hmain);
    try (vm_compute; reflexivity).
  exists w6, rr, rm. split; [exact Hmain |]. split.
  - rewrite L6. apply last_snoc.
  - rewrite L6, L5. apply in_or_app. left. apply in_or_app. right. left. reflexivity.
Defined.

(** C1, at a failing input.  On a cgroup v1 host on which the limit file of
    the new group cannot be read, the run [swapout 42] applies the ceiling,
    takes its sample and enters [restore_limit], whose copy of the v1
    fallback (19 digits and the NUL) runs past the 16 bytes of [fallback].
    In a build with a checked [strcpy] the process is aborted there: nothing
    is written back, [cleanup_cgroup] does not run (no [rmdir], the group
    directory stays) and the process ends with status 134.  In a build that
    goes on, what is written back is the text found in the buffer, not the
    fallback. *)
Theorem overflow_aborts_before_cleanup :
  (let run := main fortified_env [] ["42"] host_v1 in
   run.1 = Some 134
   /\ map fst (last_events 2 run.2)
      = [Write "/sys/fs/cgroup/memory/swapout/42/memory.limit_in_bytes" (limit_line 8);
         Read "/proc/42/status"]
   /\ filter (fun e => is_rmdir e) (w_log run.2) = []
   /\ w_fs run.2 !! "/sys/fs/cgroup/memory/swapout/42" = Some Dir)
  /\ (let run := main quiet_env [] ["42"] host_v1 in
      run.1 = Some 0
      /\ map fst (last_events 2 run.2)
         = [Write "/sys/fs/cgroup/memory/swapout/42/memory.limit_in_bytes"
              ("9223372036854771" +:+ nl);
            Rmdir "/sys/fs/cgroup/memory/swapout/42"]).
Proof. vm_compute. repeat split. Qed.

Lemma handle_opt_continues E c o optarg :
  continues o = true -> exists c', handle_opt E c o optarg = inl c'.
Proof.
  destruct o as [[] [] [] [] [] [] [] []]; simpl; try discriminate; eauto.
Qed.

Lemma handle_opt_code E c o optarg code :
  handle_opt E c o optarg = inr code -> code = 0 \/ code = 1.
Proof.
  destruct o as [[] [] [] [] [] [] [] []]; simpl; intros H; inversion H; auto.
Qed.

Lemma getopt_loop_code E opts : forall c code,
  getopt_loop E opts c = inr code -> code = 0 \/ code = 1.
Proof.
  induction opts as [| [o optarg] opts IH]; intros c code; simpl.
  - discriminate.
  - destruct (handle_opt E c o optarg) as [c' | code'] eqn:Hh.
    + apply IH.
    + intros H. inversion H; subst. eapply handle_opt_code; eassumption.
Qed.

Lemma getopt_loop_help E opts :
  help_first opts -> forall c, getopt_loop E opts c = inr 0.
Proof.
  intros (pre & optarg & rest & -> & Hpre).
  induction Hpre as [| [o oa] pre Ho Hpre IH]; intros c; simpl.
  - reflexivity.
  - destruct (handle_opt_continues E c o oa Ho) as [c' ->]. apply IH.
Qed.

(** C4, as stated, fails: the pid argument 42abc is not the text of a
    process id, and [main] does not end with status 1 on it; [atoi] reads it
    as 42, and on a host with a process 42 the run goes its whole way and
    ends with status 0. *)
Lemma trailing_text_pid_is_accepted : ~ invalid_pid_exits_1.
Proof.
  intros Hclaim.
  assert (Hbad : ~ pid_text "42abc").
  { intros (p & Hp & Heq). destruct (pretty_Z_decimal p) as (Hall & _); [lia |].
    rewrite <- Heq in Hall. vm_compute in Hall. discriminate. }
  specialize (Hclaim quiet_env [] defaults "42abc" [] host_v2 eq_refl Hbad).
  vm_compute in Hclaim. discriminate.
Qed.

(** C4, amended.  [main] ends.  The status is 0 when [-h] is reached.  It
    is 1 when no pid argument is left, when [atoi] reads the pid argument as
    zero or negative (an argument such as 42abc is read as the pid 42), when
    [/proc/<pid>] is missing, and when setup fails (in particular when it
    detects no cgroup controller).  After a successful setup, when the text
    [restore_limit] is to write fits its buffers (the original limit, or the
    fallback of cgroup v2), the status is 1 when the limit cannot be
    applied, and 0 when the poll loop has been entered, however it ends
    (converged, process vanished, or timed out). *)
Theorem exit_status (E : env) (opts : list (ascii * string)) (args : list string)
  (w : world) :
  exists code w',
    main E opts args w = (Some code, w')
    /\ (help_first opts -> code = 0)
    /\ (forall c, getopt_loop E opts defaults = inl c ->
        (args = [] -> code = 1)
        /\ (forall a rest, args = a :: rest ->
            (atoi a <= 0 -> code = 1)
            /\ (0 < atoi a ->
                forall alive w1,
                  file_exists E (proc_path (atoi a)) w = (alive, w1) ->
                  (alive = false -> code = 1)
                  /\ (alive = true ->
                      forall rc ctx w2,
                        setup_cgroup_for_pid E (atoi a) (quiet c) w1 = ((rc, ctx), w2) ->
                        (ver ctx = CGROUP_NONE -> code = 1)
                        /\ (rc <> 0 -> code = 1)
                        /\ (rc = 0 -> restore_line ctx <> None ->
                            forall ar w3,
                              apply_low_limit E ctx (limit_mb c) (quiet c) w2 = (ar, w3) ->
                              (ar <> 0 -> code = 1)
                              /\ (ar = 0 ->
                                  exists iter st w4,
                                    poll_loop E (Z.to_nat (max_iter c)) (atoi a) c 0 w3
                                    = (Some (iter, st), w4)
                                    /\ code = 0)))))).
Proof.
  destruct (main_emits E opts args w) as (code & evs & w' & [Hm _] & Tm).
  exists code, w'. split; [exact Hm |]. split.
  - intros Hhelp. unfold main in Hm. rewrite (getopt_loop_help E opts Hhelp) in Hm.
    inversion Hm; reflexivity.
  - intros c Hopts. unfold main in Hm. rewrite Hopts in Hm. split.
    { intros ->. inversion Hm; reflexivity. }
    intros a rest ->. fold (proc_path (atoi a)) in Hm.
    destruct (Z.leb_spec (atoi a) 0) as [Hle | Hgt]; split; try (intros; lia).
    { intros _. inversion Hm; reflexivity. }
    intros _ alive w1 Halive. unfold bind at 1 in Hm. rewrite Halive in Hm.
    split.
    { intros ->. simpl in Hm. inversion Hm; reflexivity. }
    intros ->. simpl in Hm. intros rc ctx w2 Hsetup.
    unfold bind at 1 in Hm. rewrite Hsetup in Hm. simpl in Hm.
    assert (Hnone : ver ctx = CGROUP_NONE -> rc <> 0).
    { intros Hver ->. destruct (setup_ok_ctx _ _ _ _ _ _ Hsetup) as [Hv _].
      contradiction. }
    destruct (Z.eqb_spec rc 0) as [-> | Hrc]; simpl in Hm.
    2: { inversion Hm; subst. repeat split; auto. intros; contradiction. }
    split; [intros Hver; now apply Hnone in Hver |].
    split; [intros; contradiction |].
    intros _ Hfits ar w3 Happly. unfold bind at 1 in Hm. rewrite Happly in Hm.
    destruct (setup_ok_ctx _ _ _ _ _ _ Hsetup) as [Hver _].
    assert (Hval : exists val, restore_value ctx = Some val).
    { unfold restore_line in Hfits. destruct (restore_value ctx) as [val |]; eauto.
      now contradiction Hfits. }
    destruct Hval as [val Hval].
    destruct (Z.eqb_spec ar 0) as [-> | Har]; simpl in Hm.
    + split; [intros; contradiction |]. intros _.
      destruct (poll_loop_polls (atoi a) c E (Z.to_nat (max_iter c)) 0 w3)
        as (iter & st & pevs & w4 & [Hp _] & _).
      { replace (max_iter c - 0) with (max_iter c) by lia. lia. }
      exists iter, st, w4. split; [exact Hp |].
      unfold bind at 1 in Hm. rewrite Hp in Hm.
      destruct (restore_limit_fits E ctx (quiet c) w4 val Hver Hval) as (rr & w5 & Hrr & _).
      unfold bind at 1 in Hm. rewrite Hrr in Hm. unfold bind in Hm.
      destruct (cleanup_cgroup E ctx (quiet c) w5) as [u2 w6].
      inversion Hm; reflexivity.
    + split; [| intros; contradiction]. intros _.
      destruct (restore_limit_fits E ctx (quiet c) w3 val Hver Hval) as (rr & w5 & Hrr & _).
      unfold bind at 1 in Hm. rewrite Hrr in Hm. unfold bind in Hm.
      destruct (cleanup_cgroup E ctx (quiet c) w5) as [u2 w6].
      inversion Hm; reflexivity.
Qed.

Lemma sys_stat_fs E path w r w' :
  sys E (Stat path) w = (r, w') ->
  w_fs w' = env_interfere E (length (w_log w)) (w_fs w)
  /\ w_log w' = w_log w ++ [(Stat path, r)].
Proof.
  unfold sys. intros H.
  destruct (env_fault E (length (w_log w)) (Stat path)) as [[e | n | n] |];
    simpl in H;
    try destruct (env_interfere E (length (w_log w)) (w_fs w) !! path) as [[| d] |];
    inversion H; subst; simpl; auto.
Qed.

Lemma file_exists_sys E path w r w' :
  sys E (Stat path) w = (r, w') -> file_exists E path w = (is_found r, w').
Proof. intros H. unfold file_exists, bind. rewrite H. reflexivity. Qed.

Lemma detect_none E w r1 w1 r2 w2 :
  sys E (Stat controllers_marker) w = (r1, w1) -> is_found r1 = false ->
  sys E (Stat memory_marker) w1 = (r2, w2) -> is_found r2 = false ->
  detect_cgroup_version E w = (CGROUP_NONE, w2).
Proof.
  intros H1 F1 H2 F2. unfold detect_cgroup_version, bind.
  fold controllers_marker. rewrite (file_exists_sys _ _ _ _ _ H1), F1.
  fold memory_marker. rewrite (file_exists_sys _ _ _ _ _ H2), F2. reflexivity.
Qed.

Lemma setup_no_controller E p q w w' :
  detect_cgroup_version E w = (CGROUP_NONE, w') ->
  setup_cgroup_for_pid E p q w = ((-1, ctx_detected CGROUP_NONE), w').
Proof.
  intros H. unfold setup_cgroup_for_pid, bind. rewrite H. reflexivity.
Qed.

(** C7.  When the tool, having found the process, finds neither the
    unified-hierarchy controllers file nor the memory-controller directory,
    [main] returns 1 at once: the run consists of three [stat] calls, and
    the file system at exit is what the environment alone made of it. *)
Theorem no_controller_no_mutation
  (E : env) (opts : list (ascii * string)) (args : list string) (w : world)
  (c : config) (a : string) (rest : list string)
  (r0 r1 r2 : outcome) (w1 w2 w3 : world) :
  getopt_loop E opts defaults = inl c ->
  args = a :: rest ->
  0 < atoi a ->
  sys E (Stat (proc_path (atoi a))) w = (r0, w1) -> is_found r0 = true ->
  sys E (Stat controllers_marker) w1 = (r1, w2) -> is_found r1 = false ->
  sys E (Stat memory_marker) w2 = (r2, w3) -> is_found r2 = false ->
  main E opts args w = (Some 1, w3)
  /\ w_log w3 = w_log w ++ [(Stat (proc_path (atoi a)), r0);
                            (Stat controllers_marker, r1);
                            (Stat memory_marker, r2)]
  /\ Forall (fun e => is_stat e = true) (drop (length (w_log w)) (w_log w3))
  /\ w_fs w3 = ambient E (length (w_log w)) 3 (w_fs w).
Proof.
  intros Hopts Hargs Hpid H0 F0 H1 F1 H2 F2.
  destruct (sys_stat_fs _ _ _ _ _ H0) as [Fs0 L0].
  destruct (sys_stat_fs _ _ _ _ _ H1) as [Fs1 L1].
  destruct (sys_stat_fs _ _ _ _ _ H2) as [Fs2 L2].
  assert (Hlog : w_log w3 = w_log w ++ [(Stat (proc_path (atoi a)), r0);
                                        (Stat controllers_marker, r1);
                                        (Stat memory_marker, r2)]).
  { rewrite L2, L1, L0, <- !app_assoc. reflexivity. }
  split; [| split; [exact Hlog | split]].
  - unfold main. rewrite Hopts, Hargs.
    destruct (Z.leb_spec (atoi a) 0) as [Hle | _]; [lia |].
    fold (proc_path (atoi a)).
    unfold bind at 1. rewrite (file_exists_sys _ _ _ _ _ H0), F0. simpl.
    unfold bind at 1.
    rewrite (setup_no_controller _ _ _ _ _ (detect_none _ _ _ _ _ _ H1 F1 H2 F2)).
    reflexivity.
  - rewrite Hlog, drop_app_length. repeat constructor.
  - simpl. rewrite Fs2, Fs1, Fs0, L1, L0, !length_app. simpl.
    replace (length (w_log w) + 1 + 1)%nat with (S (S (length (w_log w)))) by lia.
    replace (length (w_log w) + 1)%nat with (S (length (w_log w))) by lia.
    reflexivity.
Qed.

Lemma no_controller_no_mutation_witness :
  exists w', main quiet_env [] ["42"] host_bare = (Some 1, w')
             /\ w_fs w' = w_fs host_bare.
Proof.
  destruct (no_controller_no_mutation quiet_env [] ["42"] host_bare defaults "42" []
              (Found true) (Failed ENOENT) (Failed ENOENT)
              (sys quiet_env (Stat "/proc/42") host_bare).2
              (sys quiet_env (Stat controllers_marker)
                 (sys quiet_env (Stat "/proc/42") host_bare).2).2
              (sys quiet_env (Stat memory_marker)
                 (sys quiet_env (Stat controllers_marker)
                    (sys quiet_env (Stat "/proc/42") host_bare).2).2).2)
    as (Hmain & _ & _ & Hfs); try (vm_compute; reflexivity).
  eexists. split; [exact Hmain | exact Hfs].
Defined.

(** ** Claims about provisioning *)


Lemma detect_tr_stats evs v : detect_tr evs v -> Forall (fun e => is_stat e = true) evs.
Proof. inversion 1; subst; repeat constructor. Qed.


(** ** Claims about the restored value *)

Lemma ensure_dir_tr_kinds path evs r :
  ensure_dir_tr path evs r ->
  Forall (fun e => is_stat e = true \/ is_mkdir e = true) evs.
Proof.
  inversion 1; subst.
  - constructor; [now left | constructor].
  - constructor; [now left | constructor].
  - constructor; [now left |]. constructor; [now right | constructor].
Qed.

Lemma detect_tr_kinds evs v :
  detect_tr evs v -> Forall (fun e => is_stat e = true \/ is_mkdir e = true) evs.
Proof.
  intros T. eapply Forall_impl; [eapply detect_tr_stats; exact T |].
  intros e He. now left.
Qed.

(** The run of a successful setup: directories, then the one read of the
    limit file, then the complete write of the pid. *)
Lemma setup_ok_shape E p q w ctx w2 :
  setup_cgroup_for_pid E p q w = ((0, ctx), w2) ->
  exists v rd pre wr,
    v <> CGROUP_NONE
    /\ ctx = ctx_backed_up v p rd
    /\ w_log w2 = w_log w ++ pre ++ [(Read (limit_of v p), rd);
                                     (Write (procs_of v p) (pid_line p), wr)]
    /\ Forall (fun e => is_stat e = true \/ is_mkdir e = true) pre
    /\ full_write (pid_line p) wr = true.
Proof.
  intros Hrun.
  destruct (setup_emits E p q w) as (res & evs & w' & [Hs Hlog] & T).
  rewrite Hrun in Hs. inversion Hs; subst res w'. clear Hs.
  inversion T as [| | |
                  | v e0 e1 r1 e2 r2 e3 r3 rd wr Hv Hd T1 F1 T2 F2 T3 F3 Hevs Hres];
    subst.
  destruct (full_write (pid_line p) wr) eqn:Hwr; [| discriminate].
  exists v, rd, (e0 ++ e1 ++ e2 ++ e3), wr.
  split; [exact Hv |]. split; [reflexivity |].
  split; [rewrite Hlog, <- !app_assoc; reflexivity |].
  split; [| exact Hwr].
  repeat (apply Forall_app; split);
    eauto using detect_tr_kinds, ensure_dir_tr_kinds.
Qed.

Lemma restore_value_backed_up v p rd :
  restore_value (ctx_backed_up v p rd)
  = match original_limit (ctx_backed_up v p rd) with
    | Some (String ch t) => Some (String ch t)
    | _ => match v with
           | CGROUP_V2 => Some "max"
           | _ => None
           end
    end.
Proof.
  destruct rd as [e | | b | d | n]; try (destruct v; reflexivity).
  unfold ctx_backed_up, restore_value, original_limit.
  cbn [had_backup backup_limit ver].
  generalize (strncpy 127 (rtrim (c_str d))). intros [| ch t]; [| reflexivity].
  destruct v; reflexivity.
Qed.

(** C2, as stated, fails: on a host whose limit file yields no bytes the
    captured original is the empty text, and what restore writes is "max". *)
Lemma blank_original_not_written_back :
  ~ restores_original demo_blank_setup.1.2.
Proof.
  unfold restores_original. vm_compute. discriminate.
Qed.

(** C2, amended.  After a successful setup the context holds as original
    limit the text of the one read of the limit file (its C string, trailing
    bytes up to 0x20 dropped, cut to 127 bytes), or nothing when that read
    failed.  When there is an original and it is not empty, what every later
    [restore_limit] writes to the limit file is that original and a newline,
    the whole cut to 127 bytes: the original and the newline when the
    original has at most 126 bytes.  When there is no original, or an empty
    one, on cgroup v2 every later [restore_limit] writes "max" and a
    newline.  (What is written in that case on cgroup v1, where the fallback
    does not fit its buffer, is left out.) *)
Theorem restore_writes_backup_or_sentinel
  (E : env) (p : Z) (q : bool) (w : world) (ctx : cgroup_ctx_t) (w2 : world) :
  setup_cgroup_for_pid E p q w = ((0, ctx), w2) ->
  (exists pre rd wr,
      w_log w2 = w_log w ++ pre ++ [(Read (limit_path ctx), rd);
                                    (Write (procs_path ctx) (pid_line p), wr)]
      /\ Forall (fun e => is_stat e = true \/ is_mkdir e = true) pre
      /\ original_limit ctx = match rd with
                              | Bytes d => Some (strncpy 127 (rtrim (c_str d)))
                              | _ => None
                              end)
  /\ (forall t, original_limit ctx = Some t -> t <> "" ->
        restore_line ctx = Some (snprintf 128 (t +:+ nl))
        /\ ((String.length t <= 126)%nat -> snprintf 128 (t +:+ nl) = t +:+ nl)
        /\ (String.length t = 127%nat -> snprintf 128 (t +:+ nl) = t))
  /\ (original_limit ctx = None \/ original_limit ctx = Some "" ->
      ver ctx = CGROUP_V2 ->
      restore_line ctx = Some ("max" +:+ nl))
  /\ (forall text q' w3,
         restore_line ctx = Some text ->
         exists rr w4,
           restore_limit E ctx q' w3 = (Returns, w4)
           /\ w_log w4 = w_log w3 ++ [(Write (limit_path ctx) text, rr)]).
Proof.
  intros Hrun.
  destruct (setup_ok_shape _ _ _ _ _ _ Hrun) as (v & rd & pre & wr & Hv & -> & Hlog & Hpre & _).
  destruct (ctx_backed_up_fields v p rd) as (Fv & Fg & Fp & Fl).
  pose proof (restore_value_backed_up v p rd) as Hval.
  split; [| split; [| split]].
  - exists pre, rd, wr. rewrite Fp, Fl. split; [exact Hlog |]. split; [exact Hpre |].
    destruct rd; reflexivity.
  - intros t Horig Hne. rewrite Horig in Hval.
    destruct t as [| ch t]; [contradiction |]. split; [| split].
    + unfold restore_line. now rewrite Hval.
    + intros Hlen. unfold snprintf. apply str_take_all.
      rewrite str_length_app. simpl in *. lia.
    + intros Hlen. unfold snprintf. change (128 - 1)%nat with 127%nat.
      rewrite str_take_app by lia. apply str_take_all. lia.
  - intros Horig Hv2. rewrite Fv in Hv2. subst v.
    unfold restore_line. rewrite Hval. now destruct Horig as [-> | ->].
  - intros text q' w3 Hline. unfold restore_line in Hline.
    destruct (restore_value (ctx_backed_up v p rd)) as [val |] eqn:Hv'; [| discriminate].
    injection Hline as <-.
    destruct (restore_limit_fits E (ctx_backed_up v p rd) q' w3 val) as (rr & w4 & Hr & Hl);
      [now rewrite Fv | exact Hv' |].
    exists rr, w4. split; [exact Hr | exact Hl].
Qed.

Lemma restore_writes_backup_or_sentinel_witness :
  original_limit demo_stale_setup.1.2 = Some "1073741824"
  /\ restore_line demo_stale_setup.1.2 = Some ("1073741824" +:+ nl).
Proof.
  destruct (restore_writes_backup_or_sentinel quiet_env 42 false host_stale
              demo_stale_setup.1.2 demo_stale_setup.2)
    as ((pre & rd & wr & _ & _ & Horig) & Hline & _ & _).
  - vm_compute. reflexivity.
  - split; [vm_compute; reflexivity |].
    destruct (Hline "1073741824") as (Hl & _ & _);
      [vm_compute; reflexivity | discriminate |].
    rewrite Hl. vm_compute. reflexivity.
Defined.

(** C9, at a failing input.  On a cgroup v1 host on which the limit file
    of the group is read at setup and yields no bytes, the context holds an
    empty original, and [restore_limit] turns to the fallback of v1, whose
    19 digits and NUL do not fit the 16 bytes of [fallback] (the fallback of
    v2 does fit).  So the sentinel is not what is written: in a build with a
    checked [strcpy] the process is aborted in [restore_limit] and nothing
    is written back; in a build that goes on, the text found in the buffer
    is written. *)
Theorem blank_limit_overflows_on_v1 :
  demo_v1_blank_setup.1.1 = 0
  /\ ver demo_v1_blank_setup.1.2 = CGROUP_V1
  /\ original_limit demo_v1_blank_setup.1.2 = Some ""
  /\ strcpy 16 "max" = Some "max"
  /\ strcpy 16 (sentinel CGROUP_V1) = None
  /\ restore_value demo_v1_blank_setup.1.2 = None
  /\ (restore_limit fortified_env demo_v1_blank_setup.1.2 false demo_v1_blank_setup.2).1
     = Aborted 134
  /\ w_log (restore_limit fortified_env demo_v1_blank_setup.1.2 false
              demo_v1_blank_setup.2).2
     = w_log demo_v1_blank_setup.2
  /\ map fst (last_events 1 (restore_limit quiet_env demo_v1_blank_setup.1.2 false
                               demo_v1_blank_setup.2).2)
     = [Write "/sys/fs/cgroup/memory/swapout/42/memory.limit_in_bytes"
          ("9223372036854771" +:+ nl)].
Proof. vm_compute. repeat split. Qed.

Lemma digits_nonneg s : forall acc, 0 <= acc -> 0 <= digits s acc.
Proof.
  induction s as [| ch s IH]; intros acc Hacc; simpl; [exact Hacc |].
  destruct (isdigit ch) eqn:Hd; [| exact Hacc].
  apply IH. unfold isdigit in Hd. apply andb_true_iff in Hd as [Hlo _].
  apply N.leb_le in Hlo. unfold digit_val. lia.
Qed.

Lemma strtol_range s : LONG_MIN <= strtol s <= LONG_MAX.
Proof.
  unfold strtol.
  assert (Hd : forall r, 0 <= digits r 0) by (intros r; apply digits_nonneg; lia).
  assert (Hmin : forall r, LONG_MIN <= Z.min LONG_MAX (digits r 0) <= LONG_MAX).
  { intros r. specialize (Hd r). unfold LONG_MIN, LONG_MAX. lia. }
  assert (Hmax : forall r, LONG_MIN <= Z.max LONG_MIN (- digits r 0) <= LONG_MAX).
  { intros r. specialize (Hd r). unfold LONG_MIN, LONG_MAX. lia. }
  destruct (skip_space s) as [| ch r]; [apply Hmin |].
  destruct ch as [[] [] [] [] [] [] [] []]; first [apply Hmin | apply Hmax].
Qed.

Lemma atoi_range s : INT_MIN <= atoi s <= INT_MAX.
Proof.
  unfold atoi, to_int, INT_MIN, INT_MAX.
  pose proof (Z.mod_pos_bound (strtol s + 2 ^ 31) (2 ^ 32)). lia.
Qed.

Lemma defaults_valid : valid_config defaults.
Proof.
  unfold valid_config, defaults, LONG_MAX, INT_MAX. simpl.
  repeat split; try lia.
Qed.

Lemma handle_opt_valid E c o optarg c' :
  valid_config c -> handle_opt E c o optarg = inl c' -> valid_config c'.
Proof.
  intros (Hl & Ht & Hi & Hn) H.
  pose proof (strtol_range optarg) as Hs.
  pose proof (atoi_range optarg) as Ha.
  unfold valid_config.
  destruct o as [[] [] [] [] [] [] [] []]; simpl in H; inversion H; subst; simpl;
    repeat split; try tauto; try lia;
    try (destruct (Z.leb_spec (strtol optarg) 0); unfold LONG_MAX in *; lia);
    try (destruct (Z.leb_spec (atoi optarg) 0); unfold INT_MAX in *; lia).
  destruct (PrimFloat.leb (env_atof E optarg) 0) eqn:Hleb; [reflexivity | exact Hleb].
Qed.

Lemma getopt_loop_valid E opts : forall c c',
  valid_config c -> getopt_loop E opts c = inl c' -> valid_config c'.
Proof.
  induction opts as [| [o optarg] opts IH]; intros c c' Hc; simpl.
  - intros H. inversion H; subst. exact Hc.
  - destruct (handle_opt E c o optarg) as [c1 | code] eqn:Hh; [| discriminate].
    apply IH. eapply handle_opt_valid; eassumption.
Qed.

(** ** Lines *)

Lemma text_lines_nonempty s : Forall (fun l => l <> EmptyString) (text_lines s).
Proof.
  induction s as [| ch s IH]; simpl; [constructor |].
  destruct (Ascii.eqb ch LF).
  - constructor; [discriminate | exact IH].
  - destruct (text_lines s) as [| l ls]; constructor; try discriminate.
    + constructor.
    + now inversion IH.
Qed.

(** On a text whose lines fit the buffer, [fgets] delivers the lines of the
    text: the first within what is left of the buffer, the others within
    its 255 bytes. *)
Lemma fgets_lines_text s : forall room,
  (1 <= room)%nat ->
  match text_lines s with
  | [] => True
  | l :: ls =>
      (String.length l <= room)%nat
      /\ Forall (fun l' => (String.length l' <= 255)%nat) ls
  end ->
  fgets_lines 255 room s = text_lines s.
Proof.
  induction s as [| ch s IH]; intros room Hroom Hfit; simpl in *; [reflexivity |].
  destruct (Ascii.eqb ch LF); simpl.
  - f_equal. destruct Hfit as [_ Hrest]. apply IH; [lia |].
    destruct (text_lines s) as [| l ls]; [exact I |]. now inversion Hrest.
  - pose proof (text_lines_nonempty s) as Hne.
    destruct (text_lines s) as [| l ls] eqn:Hl.
    + destruct s as [| ch' s']; simpl in Hl.
      * destruct (room <=? 1)%nat; reflexivity.
      * destruct (Ascii.eqb ch' LF); [discriminate |].
        destruct (text_lines s'); discriminate.
    + destruct Hfit as [Hfirst Hrest]. simpl in Hfirst.
      inversion Hne as [| l0 ls0 Hl0 _]; subst.
      destruct l as [| ch' l']; [contradiction |]. simpl in Hfirst.
      destruct (Nat.leb_spec room 1) as [Hsmall | Hbig]; [lia |].
      rewrite (IH (room - 1)%nat); [reflexivity | lia |].
      split; [simpl; lia | exact Hrest].
Qed.

(** For a status text with lines of at most 255 bytes, [no_tag_line] speaks
    of the lines of the text. *)
Lemma no_tag_text_line d :
  Forall (fun l => (String.length l <= 255)%nat) (text_lines d) ->
  (forall line, In line (text_lines d) ->
     starts_with "VmRSS:" (c_str line) = false
     /\ starts_with "VmSwap:" (c_str line) = false) ->
  no_tag_line d.
Proof.
  intros Hshort Hno. unfold no_tag_line.
  rewrite fgets_lines_text; [exact Hno | lia |].
  destruct (text_lines d) as [| l ls]; [exact I |].
  inversion Hshort; subst. auto.
Qed.

(** ** Claims about the sampler *)

Lemma scan_untagged lines :
  (forall line, In line lines ->
     starts_with "VmRSS:" (c_str line) = false
     /\ starts_with "VmSwap:" (c_str line) = false) ->
  forall acc, fold_left scan_line lines acc = acc.
Proof.
  induction lines as [| l lines IH]; intros Hno acc; simpl; [reflexivity |].
  destruct (Hno l) as [Hrss Hswap]; [now left |].
  unfold scan_line at 2. rewrite Hrss, Hswap.
  apply IH. intros line Hin. apply Hno. now right.
Qed.

(** C10.  When the status file is read and none of its lines starts with
    [VmRSS:] or [VmSwap:], the sampler returns a sample with both sizes 0
    (not an error).  The target of a configuration that comes out of the
    option loop is at least 1, so in a turn of the poll loop that takes such
    a sample the loop is left, as [Converged]. *)
Theorem untagged_status_converges
  (E : env) (opts : list (ascii * string)) (c : config) (p : Z)
  (fuel : nat) (iter : Z) (w : world) (d : string) (w' : world) :
  getopt_loop E opts defaults = inl c ->
  sys E (Read (status_path p)) w = (Bytes d, w') ->
  no_tag_line d ->
  iter < max_iter c ->
  read_proc_meminfo E p w = (Some {| pid := p; rss_kb := 0; swap_kb := 0 |}, w')
  /\ 0 <= target_rss_kb c
  /\ poll_loop E (S fuel) p c iter w = (Some (iter, Converged), w').
Proof.
  intros Hopts Hread Hno Hiter.
  destruct (getopt_loop_valid E opts defaults c defaults_valid Hopts)
    as (_ & Ht & _ & _).
  assert (Hsample : read_proc_meminfo E p w
                    = (Some {| pid := p; rss_kb := 0; swap_kb := 0 |}, w')).
  { unfold read_proc_meminfo, bind. rewrite Hread. unfold ret, sample_of, parse_status.
    now rewrite (scan_untagged _ Hno). }
  split; [exact Hsample |]. split; [lia |].
  simpl. destruct (Z.ltb_spec iter (max_iter c)) as [_ | Hge]; [| lia].
  unfold bind at 1. rewrite Hsample. cbn [rss_kb].
  destruct (Z.leb_spec 0 (target_rss_kb c)) as [_ | Hneg]; [reflexivity | lia].
Qed.

Lemma untagged_status_converges_witness :
  exists w',
    poll_loop quiet_env 60 42 defaults 0 host_kthread = (Some (0, Converged), w').
Proof.
  eexists.
  apply (untagged_status_converges quiet_env [] defaults 42 59 0 host_kthread
           kthread_status).
  - reflexivity.
  - vm_compute. reflexivity.
  - intros line Hin. vm_compute in Hin.
    repeat (destruct Hin as [<- | Hin]; [split; reflexivity |]). destruct Hin.
  - reflexivity.
Defined.

(** ** Paths *)

Lemma status_not_limit p v p' : status_path p <> limit_of v p'.
Proof.
  intros H. apply (f_equal (str_take 2)) in H.
  destruct v; vm_compute in H; discriminate.
Qed.

Lemma group_path_fresh v p :
  group_path v p <> controllers_marker
  /\ group_path v p <> memory_marker
  /\ group_path v p <> cgroup_root v
  /\ group_path v p <> cgroup_base v.
Proof.
  repeat split; intros H; apply (f_equal (str_take 30)) in H;
    destruct v; vm_compute in H; discriminate.
Qed.

Lemma ensure_dir_tr_stat path evs r :
  ensure_dir_tr path evs r ->
  (exists s, In (Stat path, s) evs)
  /\ (forall path' s, In (Stat path', s) evs -> path' = path).
Proof.
  inversion 1; subst; (split; [eexists; now left |]);
    intros path' s' Hin; simpl in Hin;
    repeat (destruct Hin as [Hin | Hin]; [now inversion Hin |]); destruct Hin.
Qed.

Lemma detect_tr_stat evs v :
  detect_tr evs v ->
  forall path s, In (Stat path, s) evs ->
                 path = controllers_marker \/ path = memory_marker.
Proof.
  inversion 1; subst; intros path s Hin; simpl in Hin;
    repeat (destruct Hin as [Hin | Hin]; [inversion Hin; auto |]); destruct Hin.
Qed.

(** ** The context that provisioning leaves *)

Lemma setup_tr_group p evs rc ctx :
  setup_tr p evs (rc, ctx) ->
  (group_dir ctx <> "" <-> exists s, In (Stat (group_path (ver ctx) p), s) evs).
Proof.
  intros T.
  inversion T as [e0 Hd
                 | v e0 e1 r1 Hv Hd T1 F1
                 | v e0 e1 r1 e2 r2 Hv Hd T1 F1 T2 F2
                 | v e0 e1 r1 e2 r2 e3 r3 Hv Hd T1 F1 T2 F2 T3 F3
                 | v e0 e1 r1 e2 r2 e3 r3 rd wr Hv Hd T1 F1 T2 F2 T3 F3];
    subst.
  - split; [now intros H |]. intros [s Hin]. exfalso.
    destruct (group_path_fresh CGROUP_NONE p) as (N1 & N2 & _ & _).
    destruct (detect_tr_stat _ _ Hd _ _ Hin); simpl in *; congruence.
  - split; [now intros H |]. intros [s Hin]. exfalso.
    destruct (group_path_fresh v p) as (N1 & N2 & N3 & _). simpl in Hin.
    apply in_app_or in Hin as [Hin | Hin].
    + destruct (detect_tr_stat _ _ Hd _ _ Hin); congruence.
    + destruct (ensure_dir_tr_stat _ _ _ T1) as [_ Hp]. apply Hp in Hin. congruence.
  - split; [now intros H |]. intros [s Hin]. exfalso.
    destruct (group_path_fresh v p) as (N1 & N2 & N3 & N4). simpl in Hin.
    apply in_app_or in Hin as [Hin | Hin];
      [| apply in_app_or in Hin as [Hin | Hin]].
    + destruct (detect_tr_stat _ _ Hd _ _ Hin); congruence.
    + destruct (ensure_dir_tr_stat _ _ _ T1) as [_ Hp]. apply Hp in Hin. congruence.
    + destruct (ensure_dir_tr_stat _ _ _ T2) as [_ Hp]. apply Hp in Hin. congruence.
  - split; [| intros _; apply group_path_nonempty].
    intros _. destruct (ensure_dir_tr_stat _ _ _ T3) as [[s Hin] _]. exists s.
    simpl. apply in_or_app. right. apply in_or_app. right. apply in_or_app. now right.
  - destruct (ctx_backed_up_fields v p rd) as (Fv & Fg & _ & _). rewrite Fv, Fg.
    split; [| intros _; apply group_path_nonempty].
    intros _. destruct (ensure_dir_tr_stat _ _ _ T3) as [[s Hin] _]. exists s.
    apply in_or_app. right. apply in_or_app. right. apply in_or_app. right.
    apply in_or_app. now left.
Qed.

(** The events of a setup are preparations, followed, when it gets that
    far, by the read of the limit file and the write of the pid. *)
Lemma setup_tr_split p evs res :
  setup_tr p evs res ->
  (Forall prepares evs /\ original_limit res.2 = None)
  \/ exists v pre rd wr,
      evs = pre ++ [(Read (limit_of v p), rd); (Write (procs_of v p) (pid_line p), wr)]
      /\ Forall prepares pre
      /\ res.2 = ctx_backed_up v p rd.
Proof.
  intros T.
  inversion T as [e0 Hd
                 | v e0 e1 r1 Hv Hd T1 F1
                 | v e0 e1 r1 e2 r2 Hv Hd T1 F1 T2 F2
                 | v e0 e1 r1 e2 r2 e3 r3 Hv Hd T1 F1 T2 F2 T3 F3
                 | v e0 e1 r1 e2 r2 e3 r3 rd wr Hv Hd T1 F1 T2 F2 T3 F3];
    subst.
  1-4: left; split; [| reflexivity];
    repeat (apply Forall_app; split);
    eauto using detect_tr_kinds, ensure_dir_tr_kinds.
  right. exists v, (e0 ++ e1 ++ e2 ++ e3), rd, wr.
  split; [now rewrite <- !app_assoc |]. split; [| reflexivity].
  repeat (apply Forall_app; split);
    eauto using detect_tr_kinds, ensure_dir_tr_kinds.
Qed.

Lemma setup_tr_ok_split p evs ctx :
  setup_tr p evs (0, ctx) ->
  exists v pre rd wr,
    evs = pre ++ [(Read (limit_of v p), rd); (Write (procs_of v p) (pid_line p), wr)]
    /\ Forall prepares pre.
Proof.
  intros T.
  inversion T as [| | |
                  | v e0 e1 r1 e2 r2 e3 r3 rd wr Hv Hd T1 F1 T2 F2 T3 F3];
    subst.
  exists v, (e0 ++ e1 ++ e2 ++ e3), rd, wr.
  split; [now rewrite <- !app_assoc |].
  repeat (apply Forall_app; split);
    eauto using detect_tr_kinds, ensure_dir_tr_kinds.
Qed.

Lemma prepares_no_sample evs : Forall prepares evs -> sample_results evs = [].
Proof.
  induction 1 as [| [[] r] evs [Hk | Hk] _ IH]; try discriminate; simpl; auto.
Qed.

Lemma prepares_not_limit_read e : prepares e -> ~ limit_read e.
Proof.
  intros [Hk | Hk] (v & p & r & ->); discriminate.
Qed.

(** In a stretch of the log made of preparations, one read of the limit
    file, and then no further read of a limit file, that read is the only
    one and only preparations come before it. *)
Lemma read_once_split pre x post i e :
  Forall prepares pre ->
  Forall (fun e' => ~ limit_read e') post ->
  (pre ++ x :: post) !! i = Some e -> limit_read e ->
  Forall prepares (take i (pre ++ x :: post))
  /\ Forall (fun e' => ~ limit_read e') (drop (S i) (pre ++ x :: post)).
Proof.
  intros Hpre Hpost Hi He.
  assert (Hlen : i = length pre).
  { destruct (Nat.lt_trichotomy i (length pre)) as [Hlt | [Heq | Hgt]]; [| exact Heq |].
    - rewrite lookup_app_l in Hi by exact Hlt.
      apply list_elem_of_lookup_2 in Hi. rewrite Forall_forall in Hpre.
      now apply Hpre, prepares_not_limit_read in Hi.
    - rewrite lookup_app_r in Hi by lia.
      destruct (i - length pre)%nat as [| k] eqn:Hk; [lia |]. simpl in Hi.
      apply list_elem_of_lookup_2 in Hi. rewrite Forall_forall in Hpost.
      now apply Hpost in Hi. }
  subst i. split.
  - now rewrite take_app_length.
  - change (pre ++ x :: post) with (pre ++ [x] ++ post).
    rewrite app_assoc.
    replace (S (length pre)) with (length (pre ++ [x]))
      by (rewrite length_app; simpl; lia).
    now rewrite drop_app_length.
Qed.

Lemma no_limit_read_none evs i e :
  Forall (fun e' => ~ limit_read e') evs ->
  evs !! i = Some e -> limit_read e -> False.
Proof.
  intros Hall Hi He. apply list_elem_of_lookup_2 in Hi.
  rewrite Forall_forall in Hall. now apply Hall in Hi.
Qed.

Lemma polls_no_limit_read p c n evs st :
  polls p c n evs st -> Forall (fun e => ~ limit_read e) evs.
Proof.
  induction 1 as [| n r Hstop | n r sl evs st Hgo Hsl Hpolls IH].
  - constructor.
  - constructor; [| constructor]. intros (v & p' & r' & H).
    injection H as Hpath _. now apply status_not_limit in Hpath.
  - constructor.
    + intros (v & p' & r' & H).
      injection H as Hpath _. now apply status_not_limit in Hpath.
    + apply Forall_app. split; [| exact IH].
      unfold sleep_tr in Hsl. destruct (PrimFloat.leb (interval c) 0).
      * subst. constructor.
      * destruct Hsl as [rs ->]. constructor; [| constructor].
        intros (v & p' & r' & H). discriminate.
Qed.

(** C6, as stated, fails: when the pid cannot be written into
    [cgroup.procs], provisioning fails and the context names the group
    directory all the same. *)
Lemma migration_failure_keeps_group_path :
  ~ group_path_iff_success (setup_cgroup_for_pid readonly_env 42 false host_v2).1.
Proof.
  unfold group_path_iff_success. vm_compute. intros [Hsuccess _].
  assert (Hrc : (-1 = 0)%Z) by (apply Hsuccess; discriminate).
  discriminate.
Qed.

(** C6, amended.  For every run of provisioning: when it succeeds the group
    path of the context is not empty; the group path is non-empty exactly
    when the run got as far as looking at the per-pid directory, so also
    when it then fails at creating that directory or at writing the pid; the
    limit file is read at most once, and the original limit of the context,
    when there is one, is the text of that read.  For every run of [main]: a
    limit file is read at most once, and only [stat] and [mkdir] calls come
    before that read, so no write to the limit file does. *)
Theorem provisioning_context_invariant (E : env) :
  (forall p q w,
      exists rc ctx evs w',
        setup_cgroup_for_pid E p q w = ((rc, ctx), w') /\ w_log w' = w_log w ++ evs
        /\ (rc = 0 -> group_dir ctx <> "")
        /\ (group_dir ctx <> ""
            <-> exists s, In (Stat (group_path (ver ctx) p), s) evs)
        /\ (length (sample_results evs) <= 1)%nat
        /\ (forall t, original_limit ctx = Some t ->
              exists d, sample_results evs = [Bytes d]
                        /\ t = strncpy 127 (rtrim (c_str d))))
  /\ (forall opts args w,
      exists code evs w',
        main E opts args w = (Some code, w') /\ w_log w' = w_log w ++ evs
        /\ forall i e, evs !! i = Some e -> limit_read e ->
             Forall prepares (take i evs)
             /\ Forall (fun e' => ~ limit_read e') (drop (S i) evs)).
Proof.
  split.
  - intros p q w.
    destruct (setup_emits E p q w) as ([rc ctx] & evs & w' & [Hrun Hlog] & T).
    exists rc, ctx, evs, w'. split; [exact Hrun |]. split; [exact Hlog |].
    split; [| split; [exact (setup_tr_group _ _ _ _ T) |]].
    { intros ->. destruct (setup_tr_ok _ _ _ T) as (v & rd & _ & ->).
      destruct (ctx_backed_up_fields v p rd) as (_ & -> & _ & _).
      apply group_path_nonempty. }
    destruct (setup_tr_split _ _ _ T)
      as [[Hprep Hnone] | (v & pre & rd & wr & -> & Hprep & Hctx)];
      change ((rc, ctx).2) with ctx in *.
    + rewrite (prepares_no_sample _ Hprep). split; [simpl; lia |].
      intros t Ht. rewrite Hnone in Ht. discriminate.
    + rewrite sample_results_app, (prepares_no_sample _ Hprep). simpl.
      split; [lia |]. subst ctx. intros t Ht.
      destruct rd as [e | | b | d | n]; try discriminate.
      exists d. split; [reflexivity |].
      unfold original_limit, ctx_backed_up in Ht. cbn [had_backup backup_limit] in Ht.
      now inversion Ht.
  - intros opts args w.
    destruct (main_emits E opts args w) as (code & evs & w' & [Hrun Hlog] & T).
    exists code, evs, w'. split; [exact Hrun |]. split; [exact Hlog |].
    intros i e Hi He.
    assert (Hwrite : forall path data r, ~ limit_read (Write path data, r))
      by (intros path data r (v & p & r' & H); discriminate).
    assert (Hrmdir : forall path r, ~ limit_read (Rmdir path, r))
      by (intros path r (v & p & r' & H); discriminate).
    assert (Hstat : forall path r, prepares (Stat path, r)) by (intros; now left).
    assert (Hrestore : forall ctx revs en,
              restore_tr E ctx revs en -> Forall (fun e' => ~ limit_read e') revs).
    { intros ctx revs en Tr. destruct (restore_tr_shape _ _ _ _ Tr) as [_ Hw].
      eapply Forall_impl; [exact Hw |].
      intros [call r] [data Hd]. simpl in Hd. subst call. apply Hwrite. }
    inversion T as [code' Ho
                   | c Ho Ha
                   | c a rest Ho Ha Hp
                   | c a rest r Ho Ha Hp Hf
                   | c a rest r sevs rc ctx Ho Ha Hp Hf Ts Hrc
                   | c a rest r sevs ctx wr revs rm Ho Ha Hp Hf Ts Hwr Tr
                   | c a rest r sevs ctx wr revs status Ho Ha Hp Hf Ts Hwr Tr
                   | c a rest r sevs ctx wr pevs st revs rm Ho Ha Hp Hf Ts Hwr Tp Tr
                   | c a rest r sevs ctx wr pevs st revs status Ho Ha Hp Hf Ts Hwr Tp Tr];
      subst.
    + discriminate.
    + discriminate.
    + discriminate.
    + exfalso. eapply no_limit_read_none; [| exact Hi | exact He].
      constructor; [| constructor]. apply prepares_not_limit_read, Hstat.
    + destruct (setup_tr_split _ _ _ Ts)
        as [[Hprep _] | (v & pre & rd & wr & -> & Hprep & _)].
      * exfalso. eapply no_limit_read_none; [| exact Hi | exact He].
        constructor; [apply prepares_not_limit_read, Hstat |].
        eapply Forall_impl; [exact Hprep |]. apply prepares_not_limit_read.
      * apply (read_once_split ((Stat (proc_path (atoi a)), r) :: pre)
                 (Read (limit_of v (atoi a)), rd)
                 [(Write (procs_of v (atoi a)) (pid_line (atoi a)), wr)] i e);
          [| | exact Hi | exact He].
        -- constructor; [apply Hstat | exact Hprep].
        -- constructor; [apply Hwrite | constructor].
    + destruct (setup_tr_ok_split _ _ _ Ts) as (v & pre & rd & wr' & -> & Hprep).
      rewrite <- app_assoc in Hi |- *.
      apply (read_once_split ((Stat (proc_path (atoi a)), r) :: pre)
               (Read (limit_of v (atoi a)), rd)
               ((Write (procs_of v (atoi a)) (pid_line (atoi a)), wr')
                  :: (Write (limit_path ctx) (limit_line (limit_mb c)), wr)
                  :: revs ++ [(Rmdir (group_dir ctx), rm)]) i e);
        [| | exact Hi | exact He].
      * constructor; [apply Hstat | exact Hprep].
      * constructor; [apply Hwrite |]. constructor; [apply Hwrite |].
        apply Forall_app. split; [eapply Hrestore; exact Tr |].
        constructor; [apply Hrmdir | constructor].
    + destruct (setup_tr_ok_split _ _ _ Ts) as (v & pre & rd & wr' & -> & Hprep).
      rewrite <- app_assoc in Hi |- *.
      apply (read_once_split ((Stat (proc_path (atoi a)), r) :: pre)
               (Read (limit_of v (atoi a)), rd)
               ((Write (procs_of v (atoi a)) (pid_line (atoi a)), wr')
                  :: (Write (limit_path ctx) (limit_line (limit_mb c)), wr)
                  :: revs) i e);
        [| | exact Hi | exact He].
      * constructor; [apply Hstat | exact Hprep].
      * constructor; [apply Hwrite |]. constructor; [apply Hwrite |].
        eapply Hrestore; exact Tr.
    + destruct (setup_tr_ok_split _ _ _ Ts) as (v & pre & rd & wr' & -> & Hprep).
      rewrite <- app_assoc in Hi |- *.
      apply (read_once_split ((Stat (proc_path (atoi a)), r) :: pre)
               (Read (limit_of v (atoi a)), rd)
               ((Write (procs_of v (atoi a)) (pid_line (atoi a)), wr')
                  :: (Write (limit_path ctx) (limit_line (limit_mb c)), wr)
                  :: pevs ++ revs ++ [(Rmdir (group_dir ctx), rm)]) i e);
        [| | exact Hi | exact He].
      * constructor; [apply Hstat | exact Hprep].
      * constructor; [apply Hwrite |]. constructor; [apply Hwrite |].
        apply Forall_app. split; [eapply polls_no_limit_read; exact Tp |].
        apply Forall_app. split; [eapply Hrestore; exact Tr |].
        constructor; [apply Hrmdir | constructor].
    + destruct (setup_tr_ok_split _ _ _ Ts) as (v & pre & rd & wr' & -> & Hprep).
      rewrite <- app_assoc in Hi |- *.
      apply (read_once_split ((Stat (proc_path (atoi a)), r) :: pre)
               (Read (limit_of v (atoi a)), rd)
               ((Write (procs_of v (atoi a)) (pid_line (atoi a)), wr')
                  :: (Write (limit_path ctx) (limit_line (limit_mb c)), wr)
                  :: pevs ++ revs) i e);
        [| | exact Hi | exact He].
      * constructor; [apply Hstat | exact Hprep].
      * constructor; [apply Hwrite |]. constructor; [apply Hwrite |].
        apply Forall_app. split; [eapply polls_no_limit_read; exact Tp |].
        eapply Hrestore; exact Tr.
Qed.

(** ** The scenarios of the specification, run on the model *)

(** Resident size 20000, 12000, 8000 kB against a target of 16384 kB: the
    run stops after the second sample, restores the ceiling, removes the
    group directory and exits with 0. *)
Example scenario_converges :
  let run := main (shrinking_env "12000" "8000") [("r"%char, "16384")] ["42"] host_v2 in
  run.1 = Some 0
  /\ map rss_kb (readings 42 (drop 10 (w_log run.2))) = [20000; 12000]
  /\ last_events 2 run.2
     = [(Write "/sys/fs/cgroup/swapout/42/memory.high" ("max" +:+ nl), Wrote 4);
        (Rmdir "/sys/fs/cgroup/swapout/42", Done)]
  /\ w_fs run.2 !! "/sys/fs/cgroup/swapout/42" = None.
Proof. vm_compute. repeat split. Qed.

(** The process exits between the first and the second sample: the second
    read of the status file fails, restore and cleanup run, exit status 0. *)
Example scenario_process_exits :
  let run := main exiting_env [] ["42"] host_v2 in
  run.1 = Some 0
  /\ map (sample_of 42) (sample_results (drop 10 (w_log run.2)))
     = [Some {| pid := 42; rss_kb := 20000; swap_kb := 0 |}; None]
  /\ map fst (last_events 2 run.2)
     = [Write "/sys/fs/cgroup/swapout/42/memory.high" ("max" +:+ nl);
        Rmdir "/sys/fs/cgroup/swapout/42"].
Proof. vm_compute. repeat split. Qed.

(** The resident size never drops, with [-n 5]: five samples, each followed
    by a sleep, then restore and cleanup, exit status 0. *)
Example scenario_times_out :
  let run := main quiet_env [("n"%char, "5")] ["42"] host_v2 in
  run.1 = Some 0
  /\ map rss_kb (readings 42 (drop 10 (w_log run.2)))
     = [20000; 20000; 20000; 20000; 20000]
  /\ map fst (last_events 3 run.2)
     = [Nanosleep 1%float;
        Write "/sys/fs/cgroup/swapout/42/memory.high" ("max" +:+ nl);
        Rmdir "/sys/fs/cgroup/swapout/42"].
Proof. vm_compute. repeat split. Qed.

(** No cgroup markers on the host: exit status 1 after three [stat] calls. *)
Example scenario_no_controller :
  let run := main quiet_env [] ["42"] host_bare in
  run.1 = Some 1
  /\ map fst (w_log run.2)
     = [Stat "/proc/42"; Stat controllers_marker; Stat memory_marker]
  /\ w_fs run.2 = w_fs host_bare.
Proof. vm_compute. repeat split. Qed.

(** Directories left by an earlier run: setup succeeds without a [mkdir],
    and the limit found there is written back at the end. *)
Example scenario_stale_directories :
  let run := main quiet_env [("n"%char, "1")] ["42"] host_stale in
  run.1 = Some 0
  /\ filter (fun e => is_mkdir e = true) (w_log run.2) = []
  /\ map fst (last_events 2 run.2)
     = [Write "/sys/fs/cgroup/swapout/42/memory.high" ("1073741824" +:+ nl);
        Rmdir "/sys/fs/cgroup/swapout/42"].
Proof. vm_compute. repeat split. Qed.

(** Exit status on the command line alone. *)
Example scenario_usage :
  (main quiet_env [("q"%char, ""); ("h"%char, "")] [] host_v2).1 = Some 0
  /\ (main quiet_env [("?"%char, "")] ["42"] host_v2).1 = Some 1
  /\ (main quiet_env [] [] host_v2).1 = Some 1
  /\ (main quiet_env [] ["abc"] host_v2).1 = Some 1
  /\ (main quiet_env [] ["43"] host_v2).1 = Some 1.
Proof. vm_compute. repeat split. Qed.

(** * Further properties of the program *)

(** ** Strings *)

Lemma rtrim_blank b :
  str_all (fun ch => (N_of_ascii ch <=? 32)%N) b = true -> rtrim b = "".
Proof.
  induction b as [| ch b IHb]; [reflexivity |]. simpl.
  intros [Hch Hb]%andb_true_iff. now rewrite (IHb Hb), Hch.
Qed.

Lemma rtrim_blank_tail a b :
  str_all (fun ch => (N_of_ascii ch <=? 32)%N) b = true -> rtrim (a +:+ b) = rtrim a.
Proof.
  intros Hb. induction a as [| ch a IH].
  - now apply rtrim_blank.
  - change (String ch a +:+ b) with (String ch (a +:+ b)). simpl. now rewrite IH.
Qed.

(** X1.  [rtrim] removes a tail of the text made of bytes up to 0x20 and
    nothing else: the text is the result followed by such bytes, the result
    does not end in such a byte, and trimming it again changes nothing. *)
Theorem rtrim_drops_trailing_blanks (s : string) :
  (exists tail,
      s = rtrim s +:+ tail
      /\ str_all (fun ch => (N_of_ascii ch <=? 32)%N) tail = true)
  /\ (forall t ch, rtrim s = t +:+ String ch "" -> (32 < N_of_ascii ch)%N)
  /\ rtrim (rtrim s) = rtrim s.
Proof.
  induction s as [| c r ((tail & Hs & Htail) & Hlast & Hidem)]; simpl.
  - split; [exists ""; split; reflexivity |].
    split; [| reflexivity]. intros [| ? ?] ch H; discriminate.
  - destruct (rtrim r) as [| c' r'] eqn:Hr.
    + destruct (N.leb_spec (N_of_ascii c) 32) as [Hle | Hgt].
      * split.
        { exists (String c tail). split; [now rewrite Hs |].
          simpl. rewrite Htail. apply N.leb_le in Hle. now rewrite Hle. }
        split; [| reflexivity]. intros [| ? ?] ch H; discriminate.
      * split; [exists tail; split; [now rewrite Hs at 1 | exact Htail] |].
        split.
        -- intros [| ? [| ? ?]] ch H; inversion H; subst; exact Hgt.
        -- simpl. destruct (N.leb_spec (N_of_ascii c) 32); [lia | reflexivity].
    + split; [exists tail; split; [now rewrite Hs at 1 | exact Htail] |].
      split.
      * intros [| ? t] ch H; inversion H; subst.
        eapply Hlast. eassumption.
      * change (rtrim (String c (String c' r'))) with
          (match rtrim (String c' r') with
           | "" => if (N_of_ascii c <=? 32)%N then "" else String c ""
           | String a b => String c (String a b)
           end).
        now rewrite Hidem.
Qed.

(** ** The sampler *)

Lemma skip_to_digit_head line c r :
  skip_to_digit line = String c r -> isdigit c = true.
Proof.
  induction line as [| ch line IH]; simpl; [discriminate |].
  destruct (isdigit ch) eqn:Hd; [| exact IH].
  intros H. inversion H; subst. exact Hd.
Qed.

(** At a digit, [strtol] reads the run of digits, up to [LONG_MAX]. *)
Lemma strtol_at_digit c r :
  isdigit c = true -> strtol (String c r) = Z.min LONG_MAX (digits (String c r) 0).
Proof.
  intros Hd. unfold strtol.
  destruct c as [[] [] [] [] [] [] [] []]; try discriminate Hd; reflexivity.
Qed.

Lemma parse_kb_range line old :
  0 <= old <= LONG_MAX -> 0 <= parse_kb line old <= LONG_MAX.
Proof.
  intros Hold. unfold parse_kb.
  destruct (skip_to_digit line) as [| c r] eqn:Hs; [exact Hold |].
  rewrite (strtol_at_digit c r (skip_to_digit_head _ _ _ Hs)).
  pose proof (digits_nonneg (String c r) 0 ltac:(lia)).
  unfold LONG_MAX in *. lia.
Qed.

Lemma scan_lines_range lines : forall acc,
  0 <= acc.1 <= LONG_MAX -> 0 <= acc.2 <= LONG_MAX ->
  0 <= (fold_left scan_line lines acc).1 <= LONG_MAX
  /\ 0 <= (fold_left scan_line lines acc).2 <= LONG_MAX.
Proof.
  induction lines as [| l lines IH]; intros acc H1 H2; simpl; [now split |].
  apply IH; unfold scan_line;
    destruct (starts_with "VmRSS:" (c_str l));
    [| destruct (starts_with "VmSwap:" (c_str l)) | | destruct (starts_with "VmSwap:" (c_str l))];
    simpl; try assumption; now apply parse_kb_range.
Qed.

(** X2.  Whatever bytes the status file holds, the sample made of them
    carries the pid asked for and two sizes between 0 and [LONG_MAX]: a
    number too large for a [long] is clamped, and no sign is ever read. *)
Theorem sample_sizes_in_range (p : Z) (d : string) :
  pid (parse_status p d) = p
  /\ 0 <= rss_kb (parse_status p d) <= LONG_MAX
  /\ 0 <= swap_kb (parse_status p d) <= LONG_MAX.
Proof.
  split; [reflexivity |].
  apply scan_lines_range; simpl; unfold LONG_MAX; lia.
Qed.

(** ** The option loop *)





(** ** The sampler on the text the kernel prints *)

Lemma text_lines_line_app l s : is_line l -> text_lines (l +:+ s) = l :: text_lines s.
Proof.
  intros (body & -> & Hbody). induction body as [| ch body IH].
  - reflexivity.
  - simpl in Hbody. apply andb_true_iff in Hbody as [Hch Hbody].
    rewrite !str_app_cons. simpl.
    destruct (Ascii.eqb ch LF); [discriminate |].
    now rewrite (IH Hbody).
Qed.

Lemma text_lines_join ls : Forall is_line ls -> text_lines (join ls) = ls.
Proof.
  induction 1 as [| l ls Hl _ IH]; [reflexivity |].
  simpl. now rewrite (text_lines_line_app _ _ Hl), IH.
Qed.

Lemma fgets_lines_join ls :
  Forall is_line ls -> Forall (fun l => (String.length l <= 255)%nat) ls ->
  fgets_lines 255 255 (join ls) = ls.
Proof.
  intros Hlines Hfit.
  rewrite fgets_lines_text.
  - now apply text_lines_join.
  - lia.
  - rewrite (text_lines_join _ Hlines). destruct Hfit; [exact I | now split].
Qed.

Lemma digit_not_control ch :
  isdigit ch = true -> Ascii.eqb ch LF = false /\ Ascii.eqb ch NUL = false.
Proof.
  intros Hd. split.
  - destruct (Ascii.eqb_spec ch LF) as [-> |]; [discriminate | reflexivity].
  - destruct (Ascii.eqb_spec ch NUL) as [-> |]; [discriminate | reflexivity].
Qed.

Lemma c_str_app a b :
  str_all (fun ch => negb (Ascii.eqb ch NUL)) a = true -> c_str (a +:+ b) = a +:+ c_str b.
Proof.
  induction a as [| ch a IH]; [reflexivity |].
  simpl. intros [Hch Ha]%andb_true_iff. rewrite !str_app_cons. simpl.
  destruct (Ascii.eqb ch NUL); [discriminate |]. now rewrite IH.
Qed.

Lemma digits_c_str s : forall acc, digits (c_str s) acc = digits s acc.
Proof.
  induction s as [| ch s IH]; intros acc; [reflexivity |]. simpl.
  destruct (Ascii.eqb_spec ch NUL) as [-> | Hch]; [reflexivity |].
  simpl. destruct (isdigit ch); [apply IH | reflexivity].
Qed.

Lemma skip_to_digit_app a b :
  str_all (fun ch => negb (isdigit ch)) a = true ->
  skip_to_digit (a +:+ b) = skip_to_digit b.
Proof.
  induction a as [| ch a IH]; [reflexivity |].
  simpl. intros [Hch Ha]%andb_true_iff. rewrite ?str_app_cons. simpl.
  destruct (isdigit ch); [discriminate |]. now apply IH.
Qed.

(** What the sampler reads in the buffer [pad ++ number ++ rest] once it is
    past the tag. *)
Lemma parse_kb_size pad kb rest old :
  padding pad = true -> 0 <= kb <= LONG_MAX ->
  (forall ch r, rest = String ch r -> isdigit ch = false) ->
  parse_kb (c_str (pad +:+ pretty kb +:+ rest)) old = kb.
Proof.
  intros Hpad Hkb Hrest.
  destruct (pretty_Z_decimal kb) as (Hall & Hval & Hne & _); [lia |].
  rewrite c_str_app
    by (revert Hpad; apply str_all_impl; intros ch H;
        apply andb_true_iff in H as [_ H]; exact H).
  unfold parse_kb. rewrite skip_to_digit_app
    by (revert Hpad; apply str_all_impl; intros ch H;
        apply andb_true_iff in H as [H _]; apply andb_true_iff in H as [H _]; exact H).
  assert (Hdig : digits (c_str (pretty kb +:+ rest)) 0 = kb).
  { rewrite digits_c_str, Hval. destruct rest as [| ch r]; [reflexivity |].
    simpl. now rewrite (Hrest ch r eq_refl). }
  destruct (pretty kb) as [| d r] eqn:Hp; [contradiction |].
  simpl in Hall. apply andb_true_iff in Hall as [Hd _].
  destruct (digit_not_control d Hd) as [_ Hnul].
  rewrite str_app_cons in *. simpl in *. rewrite Hnul in *. simpl. rewrite Hd.
  rewrite (strtol_at_digit _ _ Hd), Hdig. lia.
Qed.

Lemma size_line_is_line tag pad kb :
  str_all (fun ch => negb (Ascii.eqb ch LF)) tag = true ->
  padding pad = true -> 0 <= kb ->
  is_line (size_line tag pad kb).
Proof.
  intros Htag Hpad Hkb.
  destruct (pretty_Z_decimal kb Hkb) as (Hall & _).
  exists (tag +:+ pad +:+ pretty kb +:+ " kB"). split.
  - unfold size_line. now rewrite !str_app_assoc.
  - rewrite !str_all_app, Htag. simpl. rewrite andb_true_r. apply andb_true_iff. split.
    + revert Hpad. apply str_all_impl. intros ch H.
      apply andb_true_iff in H as [H _]. apply andb_true_iff in H as [_ H]. exact H.
    + revert Hall. apply str_all_impl. intros ch H.
      now destruct (digit_not_control ch H) as [-> _].
Qed.

Lemma size_line_length tag pad kb :
  0 <= kb <= LONG_MAX ->
  (String.length (size_line tag pad kb)
   <= String.length tag + String.length pad + 23)%nat.
Proof.
  intros Hkb. destruct (pretty_Z_decimal kb) as (_ & _ & _ & Hlen); [lia |].
  specialize (Hlen 19 ltac:(lia) ltac:(unfold LONG_MAX in Hkb; lia)).
  unfold size_line. rewrite !str_length_app. simpl. lia.
Qed.

Lemma starts_with_app tag x : starts_with tag (tag +:+ x) = true.
Proof.
  unfold starts_with. induction tag as [| ch tag IH].
  - now destruct x.
  - rewrite str_app_cons. simpl. destruct (ascii_dec ch ch); [exact IH | contradiction].
Qed.

Lemma scan_rss_line acc pad kb :
  padding pad = true -> 0 <= kb <= LONG_MAX ->
  scan_line acc (size_line "VmRSS:" pad kb) = (kb, acc.2).
Proof.
  intros Hpad Hkb. unfold scan_line, size_line.
  rewrite (c_str_app "VmRSS:") by reflexivity.
  rewrite starts_with_app.
  unfold parse_kb at 1.
  rewrite (skip_to_digit_app "VmRSS:") by reflexivity.
  fold (parse_kb (c_str (pad +:+ pretty kb +:+ " kB" +:+ nl)) acc.1).
  rewrite parse_kb_size; auto.
  intros ch r H. inversion H. reflexivity.
Qed.

Lemma scan_swap_line acc pad kb :
  padding pad = true -> 0 <= kb <= LONG_MAX ->
  scan_line acc (size_line "VmSwap:" pad kb) = (acc.1, kb).
Proof.
  intros Hpad Hkb. unfold scan_line, size_line.
  rewrite (c_str_app "VmSwap:") by reflexivity.
  change (starts_with "VmRSS:" ("VmSwap:" +:+ ?x)) with false.
  rewrite starts_with_app.
  unfold parse_kb at 1.
  rewrite (skip_to_digit_app "VmSwap:") by reflexivity.
  fold (parse_kb (c_str (pad +:+ pretty kb +:+ " kB" +:+ nl)) acc.2).
  rewrite parse_kb_size; auto.
  intros ch r H. inversion H. reflexivity.
Qed.

Lemma scan_other_lines ls acc :
  Forall other_line ls -> fold_left scan_line ls acc = acc.
Proof.
  intros H. apply scan_untagged. intros line Hin.
  rewrite Forall_forall in H. apply list_elem_of_In in Hin.
  destruct (H _ Hin) as (_ & _ & Hr & Hs). now split.
Qed.

(** X4.  The sampler reads back what the kernel prints.  On a status text
    made of lines of at most 255 bytes, with one [VmRSS:] line and, further
    down, one [VmSwap:] line, each holding after some padding a number of
    kilobytes in the range of [long], the sample holds these two numbers. *)
Theorem sampler_reads_kernel_format
  (p : Z) (pre mid post : list string) (pad1 pad2 : string) (rss swap : Z) :
  Forall other_line pre -> Forall other_line mid -> Forall other_line post ->
  padding pad1 = true -> padding pad2 = true ->
  (String.length pad1 <= 200)%nat -> (String.length pad2 <= 200)%nat ->
  0 <= rss <= LONG_MAX -> 0 <= swap <= LONG_MAX ->
  parse_status p
    (join (pre ++ size_line "VmRSS:" pad1 rss
               :: mid ++ size_line "VmSwap:" pad2 swap :: post))
  = {| pid := p; rss_kb := rss; swap_kb := swap |}.
Proof.
  intros Hpre Hmid Hpost Hpad1 Hpad2 Hlen1 Hlen2 Hrss Hswap.
  assert (L1 : (String.length (size_line "VmRSS:" pad1 rss) <= 255)%nat).
  { etransitivity; [apply size_line_length; exact Hrss |].
    change (String.length "VmRSS:") with 6%nat. lia. }
  assert (L2 : (String.length (size_line "VmSwap:" pad2 swap) <= 255)%nat).
  { etransitivity; [apply size_line_length; exact Hswap |].
    change (String.length "VmSwap:") with 7%nat. lia. }
  assert (Hl1 : is_line (size_line "VmRSS:" pad1 rss))
    by (apply size_line_is_line; [reflexivity | assumption | lia]).
  assert (Hl2 : is_line (size_line "VmSwap:" pad2 swap))
    by (apply size_line_is_line; [reflexivity | assumption | lia]).
  assert (Hother : forall ls, Forall other_line ls ->
            Forall is_line ls /\ Forall (fun l => (String.length l <= 255)%nat) ls).
  { intros ls H. split; (eapply Forall_impl; [exact H |]); intros l (? & ? & _); assumption. }
  destruct (Hother _ Hpre) as [A1 B1], (Hother _ Hmid) as [A2 B2],
    (Hother _ Hpost) as [A3 B3].
  unfold parse_status. rewrite fgets_lines_join.
  - rewrite fold_left_app. simpl. rewrite fold_left_app. simpl.
    rewrite (scan_other_lines pre), scan_rss_line, (scan_other_lines mid),
      scan_swap_line, (scan_other_lines post) by assumption.
    reflexivity.
  - apply Forall_app. split; [exact A1 |]. constructor; [exact Hl1 |].
    apply Forall_app. split; [exact A2 |]. constructor; [exact Hl2 | exact A3].
  - apply Forall_app. split; [exact B1 |]. constructor; [exact L1 |].
    apply Forall_app. split; [exact B2 |]. constructor; [exact L2 | exact B3].
Qed.

Lemma sampler_reads_kernel_format_witness :
  parse_status 42 (status_text "20000" "0")
  = {| pid := 42; rss_kb := 20000; swap_kb := 0 |}.
Proof.
  apply (sampler_reads_kernel_format 42 ["Name:   sleeper" +:+ nl] [] []
           "     " "    " 20000 0);
    try reflexivity; try (vm_compute; lia); try (now constructor);
    try (vm_compute; split; discriminate).
  constructor; [| constructor]. split; [| split; [vm_compute; lia | split; reflexivity]].
  exists "Name:   sleeper". split; reflexivity.
Defined.

(** ** Runs of [main]: what they touch and how long they are *)

Lemma main_run E opts args w :
  exists code evs w',
    main E opts args w = (Some code, w') /\ w_log w' = w_log w ++ evs
    /\ main_tr E opts args evs code.
Proof.
  destruct (main_emits E opts args w) as (code & evs & w' & [Hrun Hlog] & T).
  exists code, evs, w'. auto.
Qed.

Lemma ensure_dir_tr_shape path evs r :
  ensure_dir_tr path evs r ->
  (length evs <= 2)%nat
  /\ Forall (fun e : event => e.1 = Stat path \/ e.1 = Mkdir path) evs.
Proof.
  inversion 1; subst; (split; [simpl; lia |]).
  - constructor; [now left | constructor].
  - constructor; [now left | constructor].
  - constructor; [now left |]. constructor; [now right | constructor].
Qed.

Lemma detect_tr_shape evs v :
  detect_tr evs v -> (length evs <= 2)%nat /\ Forall (fun e => is_stat e = true) evs.
Proof.
  inversion 1; subst; (split; [simpl; lia |]); repeat constructor.
Qed.

Lemma stat_touches_own p evs :
  Forall (fun e => is_stat e = true) evs -> Forall (touches_own p) evs.
Proof.
  intros Hs. eapply Forall_impl; [exact Hs |].
  intros [[] r] H; try discriminate. exact I.
Qed.

Lemma ensure_dir_touches_own p v path evs r :
  v <> CGROUP_NONE ->
  path = cgroup_root v \/ path = cgroup_base v \/ path = group_path v p ->
  ensure_dir_tr path evs r -> Forall (touches_own p) evs.
Proof.
  intros Hv Hpath T. destruct (ensure_dir_tr_shape _ _ _ T) as [_ H].
  eapply Forall_impl; [exact H |]. clear H.
  intros [c o] [H | H]; simpl in H; subst c.
  - exact I.
  - exists v. auto.
Qed.

Lemma setup_tr_shape p evs res :
  setup_tr p evs res -> (length evs <= 10)%nat /\ Forall (touches_own p) evs.
Proof.
  intros T.
  inversion T as [e0 Hd
                 | v e0 e1 r1 Hv Hd T1 F1
                 | v e0 e1 r1 e2 r2 Hv Hd T1 F1 T2 F2
                 | v e0 e1 r1 e2 r2 e3 r3 Hv Hd T1 F1 T2 F2 T3 F3
                 | v e0 e1 r1 e2 r2 e3 r3 rd wr Hv Hd T1 F1 T2 F2 T3 F3];
    subst;
    destruct (detect_tr_shape _ _ Hd) as [L0 S0];
    pose proof (stat_touches_own p _ S0) as O0;
    try (destruct (ensure_dir_tr_shape _ _ _ T1) as [L1 _];
         assert (O1 := ensure_dir_touches_own p v _ _ _ Hv (or_introl eq_refl) T1));
    try (destruct (ensure_dir_tr_shape _ _ _ T2) as [L2 _];
         assert (O2 := ensure_dir_touches_own p v _ _ _ Hv
                         (or_intror (or_introl eq_refl)) T2));
    try (destruct (ensure_dir_tr_shape _ _ _ T3) as [L3 _];
         assert (O3 := ensure_dir_touches_own p v _ _ _ Hv
                         (or_intror (or_intror eq_refl)) T3));
    (split; [rewrite ?length_app; simpl; lia |]);
    rewrite ?Forall_app; repeat split; try assumption.
  constructor; [exact I |]. constructor; [| constructor].
  exists v. split; [exact Hv |]. left. split; reflexivity.
Qed.

Lemma polls_shape p c n evs st :
  polls p c n evs st -> (length evs <= 2 * n)%nat /\ Forall (touches_own p) evs.
Proof.
  induction 1 as [| n r Hstop | n r sl evs st Hgo Hsl Hpolls [IHl IHo]].
  - split; [simpl; lia | constructor].
  - split; [simpl; lia | repeat constructor].
  - assert (Hs : (length sl <= 1)%nat /\ Forall (touches_own p) sl).
    { unfold sleep_tr in Hsl. destruct (PrimFloat.leb (interval c) 0).
      - subst. split; [simpl; lia | constructor].
      - destruct Hsl as [rs ->]. split; [simpl; lia | repeat constructor]. }
    destruct Hs as [Ls Os]. split.
    + simpl. rewrite length_app. lia.
    + constructor; [exact I |]. apply Forall_app. now split.
Qed.

(** X5.  Every run of [main] ends, after at most [14 + 2 * max_iter]
    system calls, where [max_iter] is the iteration bound the option loop
    has left: at most 4294967308 calls whatever the command line. *)
Theorem run_length_bound (E : env) (opts : list (ascii * string)) (args : list string)
  (w : world) :
  exists code evs w',
    main E opts args w = (Some code, w')
    /\ w_log w' = w_log w ++ evs
    /\ (length evs <= 14 + 2 * Z.to_nat (iterations E opts))%nat
    /\ (Z.of_nat (length evs) <= 14 + 2 * INT_MAX).
Proof.
  destruct (main_run E opts args w) as (code & evs & w' & Hrun & Hlog & T).
  exists code, evs, w'. split; [exact Hrun |]. split; [exact Hlog |].
  assert (Hlen : (length evs <= 14 + 2 * Z.to_nat (iterations E opts))%nat).
  { unfold iterations.
    inversion T as [code' Ho
                   | c Ho Ha
                   | c a rest Ho Ha Hp
                   | c a rest r Ho Ha Hp Hf
                   | c a rest r sevs rc ctx Ho Ha Hp Hf Ts Hrc
                   | c a rest r sevs ctx wr revs rm Ho Ha Hp Hf Ts Hw Tr
                   | c a rest r sevs ctx wr revs status Ho Ha Hp Hf Ts Hw Tr
                   | c a rest r sevs ctx wr pevs st revs rm Ho Ha Hp Hf Ts Hw Tp Tr
                   | c a rest r sevs ctx wr pevs st revs status Ho Ha Hp Hf Ts Hw Tp Tr];
      subst; rewrite ?Ho; simpl; try lia;
      destruct (setup_tr_shape _ _ _ Ts) as [Ls _];
      try (destruct (restore_tr_shape _ _ _ _ Tr) as [Lr _]);
      try (destruct (polls_shape _ _ _ _ _ Tp) as [Lp _]);
      rewrite ?length_app; simpl; rewrite ?length_app; simpl; lia. }
  split; [exact Hlen |].
  assert (Hit : 0 <= iterations E opts <= INT_MAX).
  { unfold iterations.
    destruct (getopt_loop E opts defaults) as [c | code'] eqn:Ho.
    - destruct (getopt_loop_valid E opts defaults c defaults_valid Ho) as (_ & _ & _ & Hn).
      lia.
    - unfold INT_MAX. lia. }
  lia.
Qed.

Lemma restore_touches_own E p v rd revs en :
  v <> CGROUP_NONE -> restore_tr E (ctx_backed_up v p rd) revs en ->
  Forall (touches_own p) revs.
Proof.
  intros Hv Tr. destruct (restore_tr_shape _ _ _ _ Tr) as [_ Hw].
  eapply Forall_impl; [exact Hw |].
  intros [call r] [data Hd]. simpl in Hd. subst call.
  destruct (ctx_backed_up_fields v p rd) as (_ & _ & _ & Fl).
  rewrite Fl. exists v. auto.
Qed.

(** X6.  A run of [main] for the pid [p] creates, writes and removes
    nothing outside the tool's own places: it makes no directory but the
    hierarchy root, the [swapout] parent and the group of [p]; it writes
    nothing but the pid line to the [cgroup.procs] of that group and texts
    to its limit file; it removes no directory but that group (so never the
    [swapout] parent).  A run without a pid argument issues no call. *)
Theorem run_touches_only_own_group (E : env) (opts : list (ascii * string))
  (args : list string) (w : world) :
  exists code evs w',
    main E opts args w = (Some code, w')
    /\ w_log w' = w_log w ++ evs
    /\ (args = [] -> evs = [])
    /\ (forall a rest, args = a :: rest -> Forall (touches_own (atoi a)) evs).
Proof.
  destruct (main_run E opts args w) as (code & evs & w' & Hrun & Hlog & T).
  exists code, evs, w'. split; [exact Hrun |]. split; [exact Hlog |].
  inversion T as [code' Ho
                 | c Ho Ha
                 | c a rest Ho Ha Hp
                 | c a rest r Ho Ha Hp Hf
                 | c a rest r sevs rc ctx Ho Ha Hp Hf Ts Hrc
                 | c a rest r sevs ctx wr revs rm Ho Ha Hp Hf Ts Hw Tr
                 | c a rest r sevs ctx wr revs status Ho Ha Hp Hf Ts Hw Tr
                 | c a rest r sevs ctx wr pevs st revs rm Ho Ha Hp Hf Ts Hw Tp Tr
                 | c a rest r sevs ctx wr pevs st revs status Ho Ha Hp Hf Ts Hw Tp Tr];
    subst; (split; [try discriminate; reflexivity |]);
    intros a' rest' Heq; try (inversion Heq; subst a' rest').
  all: try (destruct (setup_tr_shape _ _ _ Ts) as [_ Os]).
  all: try (destruct (polls_shape _ _ _ _ _ Tp) as [_ Op]).
  all: try (destruct (setup_tr_ok _ _ _ Ts) as (v & rd & Hv & ->);
            pose proof (restore_touches_own _ _ _ _ _ _ Hv Tr) as Or;
            destruct (ctx_backed_up_fields v (atoi a) rd) as (_ & Fg & _ & Fl);
            rewrite ?Fg, ?Fl).
  all: repeat first [ assumption | exact I | (exists v; auto; fail)
                    | apply Forall_app; split | apply Forall_nil_2
                    | apply Forall_cons_2 ].
Qed.

(** X7.  On a rejected command line (an option that ends the loop, no pid
    argument, or a pid that is not positive) [main] returns without a
    single system call, leaving the host as it was.  On every other command
    line the first call is the [stat] of [/proc/<pid>]. *)
Theorem rejected_command_line_issues_no_call
  (E : env) (opts : list (ascii * string)) (args : list string) (w : world) :
  (rejected E opts args -> (main E opts args w).2 = w)
  /\ (~ rejected E opts args ->
      exists a r evs,
        head args = Some a
        /\ w_log (main E opts args w).2
           = w_log w ++ (Stat (proc_path (atoi a)), r) :: evs).
Proof.
  destruct (main_run E opts args w) as (code & evs & w' & Hrun & Hlog & T).
  unfold rejected. rewrite Hrun. simpl.
  inversion T as [code' Ho
                 | c Ho Ha
                 | c a rest Ho Ha Hp
                 | c a rest r Ho Ha Hp Hf
                 | c a rest r sevs rc ctx Ho Ha Hp Hf Ts Hrc
                 | c a rest r sevs ctx wr revs rm Ho Ha Hp Hf Ts Hw Tr
                 | c a rest r sevs ctx wr revs status Ho Ha Hp Hf Ts Hw Tr
                 | c a rest r sevs ctx wr pevs st revs rm Ho Ha Hp Hf Ts Hw Tp Tr
                 | c a rest r sevs ctx wr pevs st revs status Ho Ha Hp Hf Ts Hw Tp Tr];
    subst; rewrite Ho.
  1-3: split; [intros _ | intros Hn; exfalso; apply Hn; auto];
    unfold main in Hrun; rewrite Ho in Hrun; simpl in Hrun.
  - now inversion Hrun.
  - now inversion Hrun.
  - destruct (Z.leb_spec (atoi a) 0); [now inversion Hrun | lia].
  - split; [lia |]. intros _. exists a, r, []. split; [reflexivity | exact Hlog].
  - split; [lia |]. intros _. exists a, r, sevs. split; [reflexivity | exact Hlog].
  - split; [lia |]. intros _. eexists a, r, _. split; [reflexivity | exact Hlog].
  - split; [lia |]. intros _. eexists a, r, _. split; [reflexivity | exact Hlog].
  - split; [lia |]. intros _. eexists a, r, _. split; [reflexivity | exact Hlog].
  - split; [lia |]. intros _. eexists a, r, _. split; [reflexivity | exact Hlog].
Qed.

(** ** The two failure paths of [main] after the process was found *)

(** X8.  When provisioning fails, [main] returns 1 at once: the host is
    left as provisioning left it.  Nothing is undone: no directory is
    removed, whatever provisioning had created, and nothing is written but,
    at most, the pid line. *)
Theorem failed_setup_is_not_undone
  (E : env) (opts : list (ascii * string)) (args : list string) (w : world)
  (c : config) (a : string) (rest : list string)
  (w1 w2 : world) (rc : Z) (ctx : cgroup_ctx_t) :
  getopt_loop E opts defaults = inl c ->
  args = a :: rest ->
  0 < atoi a ->
  file_exists E (proc_path (atoi a)) w = (true, w1) ->
  setup_cgroup_for_pid E (atoi a) (quiet c) w1 = ((rc, ctx), w2) ->
  rc <> 0 ->
  main E opts args w = (Some 1, w2)
  /\ Forall (fun e : event =>
               is_rmdir e = false
               /\ forall f d, e.1 = Write f d ->
                    f = procs_of (ver ctx) (atoi a) /\ d = pid_line (atoi a))
       (drop (length (w_log w1)) (w_log w2)).
Proof.
  intros Hopts Hargs Hpid Halive Hsetup Hrc. split.
  - unfold main. rewrite Hopts, Hargs.
    destruct (Z.leb_spec (atoi a) 0) as [Hle | _]; [lia |].
    fold (proc_path (atoi a)).
    unfold bind at 1. rewrite Halive. simpl.
    unfold bind at 1. rewrite Hsetup. simpl.
    destruct (Z.eqb_spec rc 0); [contradiction | reflexivity].
  - destruct (setup_emits E (atoi a) (quiet c) w1) as (res & evs & w' & [Hs Hl] & Ts).
    rewrite Hsetup in Hs. inversion Hs; subst res w'. clear Hs.
    rewrite Hl, drop_app_length.
    assert (Hprep : forall l, Forall prepares l ->
              Forall (fun e : event =>
                        is_rmdir e = false
                        /\ forall f d, e.1 = Write f d ->
                             f = procs_of (ver ctx) (atoi a) /\ d = pid_line (atoi a)) l).
    { intros l Hp. eapply Forall_impl; [exact Hp |].
      intros [[] o] [H | H]; try discriminate; (split; [reflexivity | discriminate]). }
    destruct (setup_tr_split _ _ _ Ts) as [[Hp _] | (v & pre & rd & wr & -> & Hp & Hctx)].
    + now apply Hprep.
    + simpl in Hctx. subst ctx.
      destruct (ctx_backed_up_fields v (atoi a) rd) as (Fv & _).
      rewrite Fv in Hprep |- *.
      apply Forall_app. split; [now apply Hprep |].
      constructor; [split; [reflexivity | discriminate] |].
      constructor; [| constructor].
      split; [reflexivity |]. intros f d H. simpl in H. now inversion H.
Qed.

Lemma failed_setup_is_not_undone_witness :
  exists w',
    main readonly_env [] ["42"] host_v2 = (Some 1, w')
    /\ w_fs w' !! "/sys/fs/cgroup/swapout/42" = Some Dir.
Proof.
  eexists. split.
  - apply (failed_setup_is_not_undone readonly_env [] ["42"] host_v2 defaults "42" []
             (file_exists readonly_env (proc_path 42) host_v2).2
             (setup_cgroup_for_pid readonly_env 42 false
                (file_exists readonly_env (proc_path 42) host_v2).2).2
             (-1)
             (setup_cgroup_for_pid readonly_env 42 false
                (file_exists readonly_env (proc_path 42) host_v2).2).1.2);
      try (vm_compute; reflexivity); try lia.
  - vm_compute. reflexivity.
Defined.

(** X9.  When provisioning has succeeded, the temporary limit cannot be
    written and the text [restore_limit] is to write fits its buffers (the
    original limit, or the fallback of cgroup v2), [main] undoes what it did
    before it returns 1: one write of that text to the limit file, then one
    [rmdir] of the group directory, and nothing else; the poll loop is not
    entered. *)
Theorem failed_apply_is_undone
  (E : env) (opts : list (ascii * string)) (args : list string) (w : world)
  (c : config) (a : string) (rest : list string)
  (w1 w2 w3 : world) (ctx : cgroup_ctx_t) (rc : Z) (text : string) :
  getopt_loop E opts defaults = inl c ->
  args = a :: rest ->
  0 < atoi a ->
  file_exists E (proc_path (atoi a)) w = (true, w1) ->
  setup_cgroup_for_pid E (atoi a) (quiet c) w1 = ((0, ctx), w2) ->
  apply_low_limit E ctx (limit_mb c) (quiet c) w2 = (rc, w3) ->
  rc <> 0 ->
  restore_line ctx = Some text ->
  exists rr rm w5,
    main E opts args w = (Some 1, w5)
    /\ w_log w5 = w_log w3 ++ [(Write (limit_path ctx) text, rr);
                              (Rmdir (group_dir ctx), rm)].
Proof.
  intros Hopts Hargs Hpid Halive Hsetup Happly Hrc Hline.
  destruct (setup_ok_ctx _ _ _ _ _ _ Hsetup) as [Hver Hgd].
  unfold restore_line in Hline.
  destruct (restore_value ctx) as [val |] eqn:Hval; [| discriminate].
  injection Hline as <-.
  destruct (restore_limit_fits E ctx (quiet c) w3 val Hver Hval) as (rr & w4 & Hrr & Lrr).
  destruct (cleanup_cgroup_emits E ctx (quiet c) w4 Hgd) as (rm & w5 & Hrm & Lrm).
  exists rr, rm, w5. split.
  - unfold main. rewrite Hopts, Hargs.
    destruct (Z.leb_spec (atoi a) 0) as [Hle | _]; [lia |].
    fold (proc_path (atoi a)).
    unfold bind at 1. rewrite Halive. simpl.
    unfold bind at 1. rewrite Hsetup. simpl.
    unfold bind at 1. rewrite Happly.
    destruct (Z.eqb_spec rc 0); [contradiction |]. simpl.
    unfold bind at 1. rewrite Hrr.
    unfold bind at 1. rewrite Hrm. reflexivity.
  - rewrite Lrm, Lrr, <- app_assoc. reflexivity.
Qed.

Lemma failed_apply_is_undone_witness :
  exists w',
    main refusing_env [] ["42"] host_v2 = (Some 1, w')
    /\ last_events 3 w'
       = [(Write "/sys/fs/cgroup/swapout/42/memory.high" (limit_line 8), Failed 13);
          (Write "/sys/fs/cgroup/swapout/42/memory.high" ("max" +:+ nl), Failed 13);
          (Rmdir "/sys/fs/cgroup/swapout/42", Done)]
    /\ w_fs w' !! "/sys/fs/cgroup/swapout/42" = None.
Proof.
  destruct (failed_apply_is_undone refusing_env [] ["42"] host_v2 defaults "42" []
              (file_exists refusing_env (proc_path 42) host_v2).2
              (setup_cgroup_for_pid refusing_env 42 false
                 (file_exists refusing_env (proc_path 42) host_v2).2).2
              (apply_low_limit refusing_env
                 (setup_cgroup_for_pid refusing_env 42 false
                    (file_exists refusing_env (proc_path 42) host_v2).2).1.2
                 8 false
                 (setup_cgroup_for_pid refusing_env 42 false
                    (file_exists refusing_env (proc_path 42) host_v2).2).2).2
              (setup_cgroup_for_pid refusing_env 42 false
                 (file_exists refusing_env (proc_path 42) host_v2).2).1.2
              (-1) ("max" +:+ nl))
    as (rr & rm & w5 & Hmain & Hlog); try (vm_compute; reflexivity); try lia.
  exists w5. split; [exact Hmain |].
  assert (Hw : w5 = (main refusing_env [] ["42"] host_v2).2) by now rewrite Hmain.
  rewrite Hw. vm_compute. split; reflexivity.
Defined.

(** ** The original limit, from the read to the write back *)

Lemma c_str_fixed t : c_str t = t -> str_all (fun ch => negb (Ascii.eqb ch NUL)) t = true.
Proof.
  induction t as [| ch t IH]; [reflexivity |]. simpl.
  destruct (Ascii.eqb ch NUL); [discriminate |].
  intros H. inversion H as [Ht]. rewrite Ht. now rewrite (IH Ht).
Qed.

Lemma c_str_blank s :
  str_all (fun ch => (N_of_ascii ch <=? 32)%N) s = true ->
  str_all (fun ch => (N_of_ascii ch <=? 32)%N) (c_str s) = true.
Proof.
  induction s as [| ch s IH]; [reflexivity |]. simpl.
  intros [Hch Hs]%andb_true_iff.
  destruct (Ascii.eqb ch NUL); [reflexivity |]. simpl. now rewrite Hch, IH.
Qed.

(** The text kept of a limit file that holds [t] followed by white space. *)
Lemma backup_of_padded_text t tail :
  c_str t = t -> rtrim t = t -> (String.length t <= 127)%nat ->
  str_all (fun ch => (N_of_ascii ch <=? 32)%N) tail = true ->
  strncpy 127 (rtrim (c_str (t +:+ tail))) = t.
Proof.
  intros Hc Hr Hlen Htail.
  rewrite (c_str_app _ _ (c_str_fixed _ Hc)).
  rewrite (rtrim_blank_tail _ _ (c_str_blank _ Htail)), Hr.
  now apply str_take_all.
Qed.

(** X10.  The original limit survives the round trip.  When the limit file
    read at setup holds a text [t] (not empty, without NUL, not ending in a
    byte up to 0x20, at most 126 bytes) followed by any white space, the
    context keeps [t], and every later [restore_limit] writes [t] and one
    newline to the limit file: what was there, with its trailing white
    space replaced by a newline. *)
Theorem original_limit_round_trip
  (E : env) (p : Z) (q : bool) (w : world) (ctx : cgroup_ctx_t) (w2 : world)
  (t tail : string) :
  setup_cgroup_for_pid E p q w = ((0, ctx), w2) ->
  In (Read (limit_path ctx), Bytes (t +:+ tail)) (drop (length (w_log w)) (w_log w2)) ->
  t <> "" -> c_str t = t -> rtrim t = t -> (String.length t <= 126)%nat ->
  str_all (fun ch => (N_of_ascii ch <=? 32)%N) tail = true ->
  original_limit ctx = Some t
  /\ (forall q' w3,
         exists rr w4,
           restore_limit E ctx q' w3 = (Returns, w4)
           /\ w_log w4 = w_log w3 ++ [(Write (limit_path ctx) (t +:+ nl), rr)]).
Proof.
  intros Hrun Hin Hne Hc Hr Hlen Htail.
  destruct (setup_ok_shape _ _ _ _ _ _ Hrun)
    as (v & rd & pre & wr & Hv & -> & Hlog & Hpre & _).
  destruct (ctx_backed_up_fields v p rd) as (Fv & Fg & Fp & Fl).
  rewrite Hlog, drop_app_length in Hin.
  assert (Hrd : rd = Bytes (t +:+ tail)).
  { apply in_app_or in Hin as [Hin | [Hin | [Hin | []]]].
    - rewrite Forall_forall in Hpre. apply list_elem_of_In in Hin.
      destruct (Hpre _ Hin) as [Hk | Hk]; discriminate.
    - now inversion Hin.
    - discriminate. }
  subst rd.
  assert (Hback : strncpy 127 (rtrim (c_str (t +:+ tail))) = t)
    by (apply backup_of_padded_text; auto; lia).
  assert (Horig : original_limit (ctx_backed_up v p (Bytes (t +:+ tail))) = Some t).
  { unfold original_limit, ctx_backed_up. cbn [had_backup backup_limit].
    now rewrite Hback. }
  split; [exact Horig |].
  intros q' w3.
  assert (Hval : restore_value (ctx_backed_up v p (Bytes (t +:+ tail))) = Some t).
  { rewrite restore_value_backed_up, Horig. now destruct t. }
  destruct (restore_limit_fits E (ctx_backed_up v p (Bytes (t +:+ tail))) q' w3 t)
    as (rr & w4 & Hrl & Hl); [now rewrite Fv | exact Hval |].
  exists rr, w4. split; [exact Hrl |].
  rewrite Hl. unfold restore_text, snprintf. rewrite str_take_all; [reflexivity |].
  rewrite str_length_app. simpl. lia.
Qed.

Lemma original_limit_round_trip_witness :
  original_limit demo_stale_setup.1.2 = Some "1073741824"
  /\ exists rr w4,
       restore_limit quiet_env demo_stale_setup.1.2 false demo_stale_setup.2
       = (Returns, w4)
       /\ w_log w4
          = w_log demo_stale_setup.2
              ++ [(Write "/sys/fs/cgroup/swapout/42/memory.high"
                     ("1073741824" +:+ nl), rr)].
Proof.
  destruct (original_limit_round_trip quiet_env 42 false host_stale
              demo_stale_setup.1.2 demo_stale_setup.2 "1073741824" nl)
    as [Horig Hrestore];
    try (vm_compute; reflexivity); try discriminate.
  - vm_compute. do 4 right. left. reflexivity.
  - vm_compute. lia.
  - split; [exact Horig | exact (Hrestore false demo_stale_setup.2)].
Defined.

(** ** The buffers of paths and texts *)

Lemma pretty_Z_length (n k : Z) :
  0 < k -> - 10 ^ k < n < 10 ^ k -> (String.length (pretty n) <= Z.to_nat k + 1)%nat.
Proof.
  intros Hk Hn. destruct n as [| x | x].
  - simpl. lia.
  - destruct (pretty_Z_decimal (Z.pos x)) as (_ & _ & _ & Hlen); [lia |].
    specialize (Hlen k Hk ltac:(lia)). lia.
  - change (pretty (Z.neg x)) with ("-" +:+ pretty_N_go (N.pos x) "").
    destruct (pretty_N_go_decimal (N.pos x)) as (_ & _ & _ & Hlen).
    specialize (Hlen (Z.to_N k)). rewrite Z_N_nat in Hlen.
    rewrite str_length_app. simpl.
    assert (String.length (pretty_N_go (N.pos x) "") <= Z.to_nat k)%nat; [| lia].
    apply Hlen. apply N2Z.inj_lt. rewrite N2Z.inj_pow, Z2N.id by lia. simpl. lia.
Qed.

Lemma pid_text_length p : 0 < p <= INT_MAX -> (String.length (pretty p) <= 10)%nat.
Proof.
  intros Hp. destruct (pretty_Z_decimal p) as (_ & _ & _ & Hlen); [lia |].
  apply (Hlen 10); [lia | unfold INT_MAX in Hp; lia].
Qed.

Lemma group_path_whole v p :
  0 < p <= INT_MAX -> group_path v p = cgroup_base v +:+ "/" +:+ pretty p.
Proof.
  intros Hp. pose proof (pid_text_length p Hp) as Hlen.
  unfold group_path, snprintf.
  rewrite (str_take_all (32 - 1) (pretty p)) by (simpl; lia).
  apply str_take_all. rewrite !str_length_app. destruct v; simpl; lia.
Qed.

(** X11.  The buffers are large enough: for every pid in the range of
    [pid_t] no path and no text the program formats is cut short by
    [snprintf], and the text of the temporary limit is whole for every
    limit. *)
Theorem buffers_hold_every_pid (v : cgroup_version_t) (p : Z) :
  0 < p <= INT_MAX ->
  proc_path p = "/proc/" +:+ pretty p
  /\ status_path p = "/proc/" +:+ pretty p +:+ "/status"
  /\ group_path v p = cgroup_base v +:+ "/" +:+ pretty p
  /\ procs_of v p = group_path v p +:+ "/cgroup.procs"
  /\ limit_of v p = group_path v p +:+ limit_file v
  /\ pid_line p = pretty p +:+ nl
  /\ (forall mb, limit_line mb = pretty (to_llong (mb * 1024 * 1024)) +:+ nl).
Proof.
  intros Hp. pose proof (pid_text_length p Hp) as Hlen.
  pose proof (group_path_whole v p Hp) as Hg.
  assert (Hgl : (String.length (group_path v p) <= 41)%nat).
  { rewrite Hg, !str_length_app. destruct v; simpl; lia. }
  repeat split.
  - apply str_take_all. rewrite str_length_app. simpl. lia.
  - apply str_take_all. rewrite !str_length_app. simpl. lia.
  - exact Hg.
  - apply str_take_all. rewrite str_length_app. simpl. lia.
  - apply str_take_all. rewrite str_length_app.
    assert (String.length (limit_file v) <= 22)%nat by (destruct v; simpl; lia).
    simpl Nat.sub. lia.
  - apply str_take_all. rewrite str_length_app. simpl. lia.
  - intros mb. apply str_take_all. rewrite str_length_app.
    assert (Hr : - 10 ^ 19 < to_llong (mb * 1024 * 1024) < 10 ^ 19).
    { unfold to_llong.
      pose proof (Z.mod_pos_bound (mb * 1024 * 1024 + 2 ^ 63) (2 ^ 64)). lia. }
    pose proof (pretty_Z_length _ 19 ltac:(lia) Hr). simpl. lia.
Qed.

Lemma buffers_hold_every_pid_witness :
  proc_path 42 = "/proc/42"
  /\ status_path 42 = "/proc/42/status"
  /\ group_path CGROUP_V1 42 = "/sys/fs/cgroup/memory/swapout/42"
  /\ procs_of CGROUP_V1 42 = group_path CGROUP_V1 42 +:+ "/cgroup.procs"
  /\ limit_of CGROUP_V1 42 = group_path CGROUP_V1 42 +:+ "/memory.limit_in_bytes"
  /\ pid_line 42 = "42" +:+ nl.
Proof.
  destruct (buffers_hold_every_pid CGROUP_V1 42) as (H1 & H2 & H3 & H4 & H5 & H6 & _).
  - vm_compute. split; [reflexivity | discriminate].
  - repeat split; assumption.
Defined.

(** X12.  Two groups are the same directory only for the same hierarchy
    and the same pid: runs for different processes never share a group. *)
Theorem groups_of_pids_are_distinct (v v' : cgroup_version_t) (p p' : Z) :
  v <> CGROUP_NONE -> v' <> CGROUP_NONE ->
  0 < p <= INT_MAX -> 0 < p' <= INT_MAX ->
  (v, p) <> (v', p') ->
  group_path v p <> group_path v' p'.
Proof.
  intros Hv Hv' Hp Hp' Hne Heq. apply Hne.
  rewrite (group_path_whole v p Hp), (group_path_whole v' p' Hp') in Heq.
  destruct v, v'; try contradiction; cbv [cgroup_base String.append] in Heq;
    try discriminate Heq; inversion Heq as [Hpp]; apply (inj pretty) in Hpp;
    now subst.
Qed.

Lemma groups_of_pids_are_distinct_witness :
  group_path CGROUP_V2 42 <> group_path CGROUP_V2 420.
Proof.
  apply groups_of_pids_are_distinct; try discriminate; vm_compute; split; congruence.
Defined.

(** ** What the helpers leave on the host *)

Lemma str_take_length n : forall s,
  String.length (str_take n s) = String.length s -> str_take n s = s.
Proof.
  induction n as [| n IH]; intros [| c s] H; simpl in *; try reflexivity;
    try discriminate.
  now rewrite IH by lia.
Qed.

(** X13.  [write_file] returns 0 when [fopen] has succeeded and [fwrite]
    has returned the count of the whole text; the result of [fclose] is not
    looked at.  So when it returns 0 and the flush of the stream was not
    refused, the file holds the whole text (a transfer cut short is reported
    as a failure), and a [read_file] of the same path that follows at once,
    undisturbed, returns that text (up to its first NUL).  But when the
    flush is refused after [n] bytes, the function returns 0 all the same,
    and the file holds these [n] bytes only. *)
Theorem write_file_then_read_file (E : env) (path val : string) (w : world) :
  (forall w1,
      write_file E path val w = (0, w1) ->
      (forall n, env_fault E (length (w_log w)) (Write path val) <> Some (Unflushed n)) ->
      w_fs w1 !! path = Some (File val)
      /\ (env_fault E (length (w_log w1)) (Read path) = None ->
          env_interfere E (length (w_log w1)) (w_fs w1) = w_fs w1 ->
          (read_file E path w1).1 = Some (c_str val)))
  /\ (forall n,
        env_fault E (length (w_log w)) (Write path val) = Some (Unflushed n) ->
        env_interfere E (length (w_log w)) (w_fs w) !! path <> Some Dir ->
        (write_file E path val w).1 = 0
        /\ w_fs (write_file E path val w).2 !! path = Some (File (str_take n val))).
Proof.
  split.
  - intros w1 Hw Hflush.
    assert (Hfs : w_fs w1 !! path = Some (File val)).
    { unfold write_file, bind, sys, ret in Hw.
      destruct (env_fault E (length (w_log w)) (Write path val)) as [[e | n | n] |];
        simpl in Hw.
      - discriminate.
      - destruct (env_interfere E (length (w_log w)) (w_fs w) !! path) as [[| d] |];
          try discriminate;
          destruct (Nat.eqb_spec (String.length (str_take n val)) (String.length val))
            as [Hlen | Hlen]; try discriminate;
          inversion Hw; subst; simpl;
          rewrite (str_take_length _ _ Hlen); apply lookup_insert_eq.
      - now contradiction (Hflush n).
      - destruct (env_interfere E (length (w_log w)) (w_fs w) !! path) as [[| d] |];
          try discriminate;
          inversion Hw; subst; simpl; apply lookup_insert_eq. }
    split; [exact Hfs |].
    intros Hfault Hamb. unfold read_file, bind, sys. rewrite Hfault, Hamb. simpl.
    now rewrite Hfs.
  - intros n Hfault Hdir. unfold write_file, bind, sys, ret. rewrite Hfault.
    unfold exec_unflushed, exec, cut.
    destruct (env_interfere E (length (w_log w)) (w_fs w) !! path) as [[| d] |];
      try contradiction; simpl; rewrite Nat.eqb_refl;
      (split; [reflexivity | apply lookup_insert_eq]).
Qed.

Lemma write_file_then_read_file_witness :
  (write_file rejecting_env "/sys/fs/cgroup/swapout/42/memory.high" (limit_line 8)
     demo_setup.2).1 = 0
  /\ w_fs (write_file rejecting_env "/sys/fs/cgroup/swapout/42/memory.high"
             (limit_line 8) demo_setup.2).2
       !! "/sys/fs/cgroup/swapout/42/memory.high" = Some (File "").
Proof.
  destruct (write_file_then_read_file rejecting_env
              "/sys/fs/cgroup/swapout/42/memory.high" (limit_line 8) demo_setup.2)
    as [_ Hrefused].
  apply (Hrefused 0%nat).
  - reflexivity.
  - vm_compute. discriminate.
Defined.

(** What a call other than a write leaves behind. *)
Lemma sys_cases E c w r w' :
  match c with Write _ _ => False | _ => True end ->
  sys E c w = (r, w') ->
  w_log w' = w_log w ++ [(c, r)]
  /\ ((exists e, r = Failed e
                 /\ w_fs w' = env_interfere E (length (w_log w)) (w_fs w))
      \/ exists part,
           exec c part (env_interfere E (length (w_log w)) (w_fs w)) = (r, w_fs w')).
Proof.
  unfold sys. intros Hc H.
  destruct (env_fault E (length (w_log w)) c) as [[e | n | n] |].
  - inversion H; subst; simpl. split; [reflexivity |]. left. eauto.
  - destruct (exec c (Some n) (env_interfere E (length (w_log w)) (w_fs w)))
      as [r0 fs2] eqn:Hx.
    inversion H; subst; simpl. split; [reflexivity |]. right. eauto.
  - assert (Hu : exec_unflushed c n (env_interfere E (length (w_log w)) (w_fs w))
                 = exec c None (env_interfere E (length (w_log w)) (w_fs w)))
      by (destruct c; try contradiction; reflexivity).
    rewrite Hu in H.
    destruct (exec c None (env_interfere E (length (w_log w)) (w_fs w)))
      as [r0 fs2] eqn:Hx.
    inversion H; subst; simpl. split; [reflexivity |]. right. eauto.
  - destruct (exec c None (env_interfere E (length (w_log w)) (w_fs w)))
      as [r0 fs2] eqn:Hx.
    inversion H; subst; simpl. split; [reflexivity |]. right. eauto.
Qed.

(** X14.  When [ensure_dir] returns 0 the path is a directory on the host
    at that moment, whether it was found or made. *)
Theorem ensure_dir_leaves_directory (E : env) (path : string) (w w' : world) :
  ensure_dir E path w = (None, w') -> w_fs w' !! path = Some Dir.
Proof.
  unfold ensure_dir, bind. intros H.
  destruct (sys E (Stat path) w) as [s w1] eqn:Hs.
  assert (Hmk : (let (r, w2) := sys E (Mkdir path) w1 in
                 match r with Failed e => ret (Some e) | _ => ret None end w2)
                = (None, w') -> w_fs w' !! path = Some Dir).
  { clear H. destruct (sys E (Mkdir path) w1) as [m w2] eqn:Hm.
    destruct (sys_cases E (Mkdir path) _ _ _ I Hm) as [_ [(e & -> & _) | [part Hx]]];
      [discriminate |].
    unfold exec in Hx.
    destruct (env_interfere E (length (w_log w1)) (w_fs w1) !! path);
      injection Hx as Hr Hf; subst m; [discriminate |].
    intros H. injection H as Hw. subst w'. rewrite <- Hf. apply lookup_insert_eq. }
  destruct s as [e | | [|] | d | n]; try (exact (Hmk H)).
  - injection H as Hw. subst w'.
    destruct (sys_cases E (Stat path) _ _ _ I Hs) as [_ [(e & He & _) | [part Hx]]];
      [discriminate |].
    unfold exec in Hx.
    destruct (env_interfere E (length (w_log w)) (w_fs w) !! path) as [[| d] |] eqn:Hl;
      try discriminate Hx.
    injection Hx as Hf. now rewrite <- Hf.
  - discriminate.
Qed.

Lemma ensure_dir_leaves_directory_witness :
  w_fs (ensure_dir quiet_env "/sys/fs/cgroup/swapout" host_v2).2
    !! "/sys/fs/cgroup/swapout" = Some Dir.
Proof.
  apply (ensure_dir_leaves_directory quiet_env "/sys/fs/cgroup/swapout" host_v2).
  vm_compute. reflexivity.
Defined.

(** ** Observers *)

Lemma ambient_app E n : forall t m fs,
  ambient E t (n + m) fs = ambient E (t + n) m (ambient E t n fs).
Proof.
  induction n as [| n IH]; intros t m fs; simpl.
  - now rewrite Nat.add_0_r.
  - rewrite IH. now replace (S t + n)%nat with (t + S n)%nat by lia.
Qed.

Lemma only_observes_ret {A} E (a : A) : only_observes E (ret a).
Proof. intros w. exists []. simpl. now rewrite app_nil_r. Qed.

Lemma only_observes_bind {A B} E (m : M A) (k : A -> M B) :
  only_observes E m -> (forall a, only_observes E (k a)) -> only_observes E (bind m k).
Proof.
  intros Hm Hk w. unfold bind.
  destruct (Hm w) as (e1 & L1 & F1). destruct (m w) as [a w1]. simpl in *.
  destruct (Hk a w1) as (e2 & L2 & F2).
  exists (e1 ++ e2). split.
  - now rewrite L2, L1, app_assoc.
  - rewrite F2, F1, L1, !length_app. symmetry. apply ambient_app.
Qed.

Lemma only_observes_sys E c :
  match c with Stat _ | Read _ | Nanosleep _ => True | _ => False end ->
  only_observes E (sys E c).
Proof.
  intros Hc w. destruct (sys E c w) as [r w'] eqn:Hs.
  assert (Hnw : match c with Write _ _ => False | _ => True end)
    by (destruct c; try contradiction; exact I).
  destruct (sys_cases _ _ _ _ _ Hnw Hs) as [Hl Hf].
  exists [(c, r)]. split; [exact Hl |]. simpl.
  destruct Hf as [(e & _ & Hf) | [part Hx]]; [exact Hf |].
  destruct c; try contradiction; unfold exec in Hx.
  - destruct (env_interfere E (length (w_log w)) (w_fs w) !! path) as [[| d] |];
      now inversion Hx.
  - destruct (env_interfere E (length (w_log w)) (w_fs w) !! path) as [[| d] |];
      now inversion Hx.
  - now inversion Hx.
Qed.

Lemma only_observes_sample E p : only_observes E (read_proc_meminfo E p).
Proof.
  apply only_observes_bind; [now apply only_observes_sys |].
  intros r. apply only_observes_ret.
Qed.

Lemma only_observes_sleep E secs : only_observes E (sleep_double E secs).
Proof.
  unfold sleep_double. destruct (PrimFloat.leb secs 0); [apply only_observes_ret |].
  apply only_observes_bind; [now apply only_observes_sys |].
  intros r. apply only_observes_ret.
Qed.

Lemma only_observes_exists E path : only_observes E (file_exists E path).
Proof.
  apply only_observes_bind; [now apply only_observes_sys |].
  intros r. apply only_observes_ret.
Qed.

(** X15.  Looking does not touch.  The existence test, [read_file], the
    sampler, the sleep, the detection of the hierarchy and the whole poll
    loop change nothing on the host: the file system they leave is what the
    environment alone has made of it in the meantime. *)
Theorem observers_leave_host_alone (E : env) :
  (forall path, only_observes E (file_exists E path))
  /\ (forall path, only_observes E (read_file E path))
  /\ (forall p, only_observes E (read_proc_meminfo E p))
  /\ (forall secs, only_observes E (sleep_double E secs))
  /\ only_observes E (detect_cgroup_version E)
  /\ (forall fuel p c iter, only_observes E (poll_loop E fuel p c iter)).
Proof.
  split; [apply only_observes_exists |].
  split.
  { intros path. apply only_observes_bind; [now apply only_observes_sys |].
    intros r. apply only_observes_ret. }
  split; [apply only_observes_sample |].
  split; [apply only_observes_sleep |].
  split.
  { unfold detect_cgroup_version.
    apply only_observes_bind; [apply only_observes_exists |].
    intros [|]; [apply only_observes_ret |].
    apply only_observes_bind; [apply only_observes_exists |].
    intros [|]; apply only_observes_ret. }
  intros fuel p c. induction fuel as [| fuel IH]; intros iter; simpl.
  - destruct (iter <? max_iter c); apply only_observes_ret.
  - destruct (iter <? max_iter c); [| apply only_observes_ret].
    apply only_observes_bind; [apply only_observes_sample |].
    intros [mi |]; [| apply only_observes_ret].
    destruct (rss_kb mi <=? target_rss_kb c); [apply only_observes_ret |].
    apply only_observes_bind; [apply only_observes_sleep |].
    intros _. apply IH.
Qed.

(** ** Numbers in and out *)

Lemma strtol_of_decimal n rest :
  0 <= n <= LONG_MAX ->
  (forall ch r, rest = String ch r -> isdigit ch = false) ->
  strtol (pretty n +:+ rest) = n.
Proof.
  intros Hn Hrest.
  destruct (pretty_Z_decimal n) as (Hall & Hval & Hne & _); [lia |].
  assert (Hdig : digits (pretty n +:+ rest) 0 = n).
  { rewrite Hval. destruct rest as [| ch r]; [reflexivity |].
    simpl. now rewrite (Hrest ch r eq_refl). }
  destruct (pretty n) as [| d r]; [contradiction |].
  simpl in Hall. apply andb_true_iff in Hall as [Hd _].
  rewrite str_app_cons in *. rewrite (strtol_at_digit _ _ Hd), Hdig. lia.
Qed.

(** X16.  For a limit of up to 8796093022207 MB (the largest whose byte
    count fits [long long]) the text [apply_low_limit] writes is the number
    of bytes in decimal and a newline, and [strtol] reads that number back
    from it. *)
Theorem limit_text_is_byte_count (mb : Z) :
  1 <= mb <= 8796093022207 ->
  limit_line mb = pretty (mb * 1048576) +:+ nl
  /\ strtol (limit_line mb) = mb * 1048576.
Proof.
  intros Hmb.
  assert (Hbytes : to_llong (mb * 1024 * 1024) = mb * 1048576).
  { unfold to_llong. rewrite Z.mod_small; lia. }
  assert (Hline : limit_line mb = pretty (mb * 1048576) +:+ nl).
  { rewrite <- Hbytes. unfold limit_line, snprintf. apply str_take_all.
    rewrite str_length_app, Hbytes.
    destruct (pretty_Z_decimal (mb * 1048576)) as (_ & _ & _ & Hlen); [lia |].
    specialize (Hlen 19 ltac:(lia) ltac:(lia)). simpl. lia. }
  split; [exact Hline |].
  rewrite Hline. apply strtol_of_decimal.
  - unfold LONG_MAX. lia.
  - intros ch r H. inversion H. reflexivity.
Qed.

Lemma limit_text_is_byte_count_witness :
  limit_line 8 = "8388608" +:+ nl /\ strtol (limit_line 8) = 8388608.
Proof.
  apply (limit_text_is_byte_count 8). lia.
Defined.

Lemma atoi_of_decimal p rest :
  0 < p <= INT_MAX ->
  (forall ch r, rest = String ch r -> isdigit ch = false) ->
  atoi (pretty p +:+ rest) = p.
Proof.
  intros Hp Hrest. unfold atoi.
  rewrite strtol_of_decimal; [| unfold LONG_MAX, INT_MAX in *; lia | exact Hrest].
  unfold to_int, INT_MAX in *. rewrite Z.mod_small; lia.
Qed.

(** X17.  The pid argument is read leniently: whatever follows the decimal
    digits of a pid is ignored, so [main] goes on with that pid and its
    first call is the [stat] of the directory of that process. *)
Theorem pid_argument_is_read_leniently
  (E : env) (opts : list (ascii * string)) (c : config) (p : Z)
  (junk : string) (more : list string) (w : world) :
  getopt_loop E opts defaults = inl c ->
  0 < p <= INT_MAX ->
  (forall ch r, junk = String ch r -> isdigit ch = false) ->
  atoi (pretty p +:+ junk) = p
  /\ exists r evs,
       w_log (main E opts ((pretty p +:+ junk) :: more) w).2
       = w_log w ++ (Stat ("/proc/" +:+ pretty p), r) :: evs.
Proof.
  intros Hopts Hp Hjunk.
  pose proof (atoi_of_decimal p junk Hp Hjunk) as Hatoi.
  split; [exact Hatoi |].
  assert (Hpath : proc_path p = "/proc/" +:+ pretty p).
  { unfold proc_path, snprintf. apply str_take_all. rewrite str_length_app.
    pose proof (pid_text_length p Hp). simpl. lia. }
  destruct (main_run E opts ((pretty p +:+ junk) :: more) w)
    as (code & evs & w' & Hrun & Hlog & T).
  rewrite Hrun. simpl. rewrite Hlog, <- Hpath.
  inversion T as [code' Ho
                 | c0 Ho Ha
                 | c0 a rest Ho Ha Hle
                 | c0 a rest r Ho Ha Hlt Hf
                 | c0 a rest r sevs rc ctx Ho Ha Hlt Hf Ts Hrc
                 | c0 a rest r sevs ctx wr revs rm Ho Ha Hlt Hf Ts Hw Tr
                 | c0 a rest r sevs ctx wr revs status Ho Ha Hlt Hf Ts Hw Tr
                 | c0 a rest r sevs ctx wr pevs st revs rm Ho Ha Hlt Hf Ts Hw Tp Tr
                 | c0 a rest r sevs ctx wr pevs st revs status Ho Ha Hlt Hf Ts Hw Tp Tr];
    subst; try congruence;
    try (injection Ha as <- <-; rewrite Hatoi in *; try lia; eauto).
Qed.

Lemma pid_argument_is_read_leniently_witness :
  atoi "42abc" = 42
  /\ exists r evs,
       w_log (main quiet_env [] ["42abc"] host_v2).2
       = w_log host_v2 ++ (Stat "/proc/42", r) :: evs.
Proof.
  apply (pid_argument_is_read_leniently quiet_env [] defaults 42 "abc" [] host_v2).
  - reflexivity.
  - vm_compute. split; [reflexivity | discriminate].
  - intros ch r H. inversion H. reflexivity.
Defined.

(** ** An original limit that does not fit its buffer *)

(** X18.  An original limit of 127 bytes or more does not survive: the
    context keeps its first 127 bytes, and what [restore_limit] writes is
    these 127 bytes alone, the newline that should end the text being cut
    off by the size of the buffer. *)
Theorem long_limit_loses_newline
  (E : env) (p : Z) (q : bool) (w : world) (ctx : cgroup_ctx_t) (w2 : world)
  (d : string) :
  setup_cgroup_for_pid E p q w = ((0, ctx), w2) ->
  In (Read (limit_path ctx), Bytes d) (drop (length (w_log w)) (w_log w2)) ->
  (127 <= String.length (rtrim (c_str d)))%nat ->
  original_limit ctx = Some (str_take 127 (rtrim (c_str d)))
  /\ restore_line ctx = Some (str_take 127 (rtrim (c_str d)))
  /\ option_map String.length (restore_line ctx) = Some 127%nat.
Proof.
  intros Hrun Hin Hlong.
  destruct (setup_ok_shape _ _ _ _ _ _ Hrun)
    as (v & rd & pre & wr & Hv & -> & Hlog & Hpre & _).
  destruct (ctx_backed_up_fields v p rd) as (Fv & Fg & Fp & Fl).
  rewrite Hlog, drop_app_length in Hin.
  assert (Hrd : rd = Bytes d).
  { apply in_app_or in Hin as [Hin | [Hin | [Hin | []]]].
    - rewrite Forall_forall in Hpre. apply list_elem_of_In in Hin.
      destruct (Hpre _ Hin) as [Hk | Hk]; discriminate.
    - now inversion Hin.
    - discriminate. }
  subst rd.
  assert (Horig : original_limit (ctx_backed_up v p (Bytes d))
                  = Some (str_take 127 (rtrim (c_str d)))) by reflexivity.
  pose proof (str_take_full 127 _ Hlong) as Hfull.
  assert (Hline : restore_line (ctx_backed_up v p (Bytes d))
                  = Some (str_take 127 (rtrim (c_str d)))).
  { unfold restore_line. rewrite restore_value_backed_up, Horig.
    destruct (str_take 127 (rtrim (c_str d))) as [| ch t] eqn:Ht; [discriminate |].
    simpl. f_equal. unfold restore_text, snprintf. change (128 - 1)%nat with 127%nat.
    rewrite str_take_app by lia. rewrite <- Ht. apply str_take_take. }
  split; [exact Horig |]. split; [exact Hline |]. rewrite Hline.
  cbn [option_map]. now rewrite Hfull.
Qed.

Lemma long_limit_loses_newline_witness :
  restore_line demo_long_setup.1.2 = Some (str_take 127 long_limit)
  /\ option_map String.length (restore_line demo_long_setup.1.2) = Some 127%nat.
Proof.
  destruct (long_limit_loses_newline quiet_env 42 false host_long
              demo_long_setup.1.2 demo_long_setup.2 (long_limit +:+ nl))
    as (_ & Hline & Hlen).
  - vm_compute. reflexivity.
  - vm_compute. do 4 right. left. reflexivity.
  - vm_compute. lia.
  - split; [| exact Hlen]. rewrite Hline. vm_compute. reflexivity.
Defined.

(** ** Options and the variables they set *)

Lemma getopt_loop_app E pre post : forall c c1,
  getopt_loop E pre c = inl c1 ->
  getopt_loop E (pre ++ post) c = getopt_loop E post c1.
Proof.
  induction pre as [| [o optarg] pre IH]; intros c c1; simpl.
  - intros H. now inversion H.
  - destruct (handle_opt E c o optarg) as [c2 | code]; [apply IH | discriminate].
Qed.

Lemma strtol_pretty n : 0 <= n <= LONG_MAX -> strtol (pretty n) = n.
Proof.
  intros Hn. rewrite <- (str_app_nil_r (pretty n)).
  apply strtol_of_decimal; [exact Hn | discriminate].
Qed.

(** X19.  A numeric option given last sets its variable to the number it
    spells and leaves the other variables as the earlier options made
    them: [-m] and [-r] for every number from 1 to [LONG_MAX], [-n] for
    every number from 1 to [INT_MAX]. *)
Theorem last_numeric_option_wins
  (E : env) (opts : list (ascii * string)) (c : config) (n : Z) :
  getopt_loop E opts defaults = inl c ->
  1 <= n <= LONG_MAX ->
  getopt_loop E (opts ++ [("m"%char, pretty n)]) defaults
  = inl {| limit_mb := n; target_rss_kb := target_rss_kb c; interval := interval c;
           max_iter := max_iter c; quiet := quiet c |}
  /\ getopt_loop E (opts ++ [("r"%char, pretty n)]) defaults
     = inl {| limit_mb := limit_mb c; target_rss_kb := n; interval := interval c;
              max_iter := max_iter c; quiet := quiet c |}
  /\ (n <= INT_MAX ->
      getopt_loop E (opts ++ [("n"%char, pretty n)]) defaults
      = inl {| limit_mb := limit_mb c; target_rss_kb := target_rss_kb c;
               interval := interval c; max_iter := n; quiet := quiet c |}).
Proof.
  intros Hopts Hn.
  pose proof (strtol_pretty n ltac:(lia)) as Hs.
  rewrite !(getopt_loop_app E opts _ defaults c Hopts). simpl.
  rewrite Hs. destruct (Z.leb_spec n 0) as [Hle | _]; [lia |].
  split; [reflexivity |]. split; [reflexivity |].
  intros Hint. unfold atoi. rewrite Hs. unfold to_int, INT_MAX in *.
  rewrite Z.mod_small by lia.
  replace (n + 2 ^ 31 - 2 ^ 31) with n by lia.
  destruct (Z.leb_spec n 0) as [Hle | _]; [lia | reflexivity].
Qed.

Lemma last_numeric_option_wins_witness :
  getopt_loop quiet_env (demo_opts ++ [("m"%char, "512")]) defaults
  = inl {| limit_mb := 512; target_rss_kb := LONG_MAX; interval := 1%float;
           max_iter := 60; quiet := true |}.
Proof.
  apply (last_numeric_option_wins quiet_env demo_opts demo_config 512).
  - vm_compute. reflexivity.
  - vm_compute. split; discriminate.
Defined.
